(** * Air-quality dashboard: the data pipeline of [dashboard.py]

    The script is one top-to-bottom pass: [load_data] rebuilds the
    [datetime] column and sorts the table, the wind-direction code is
    mapped to its full name, the sidebar widgets are read, the table is
    filtered, and the KPI cards, charts and tables are rendered from the
    filtered frame.

    A data frame is a list of rows (a record per row, a field per column).
    A cell that pandas shows as NaN / NaT is [None].  Numeric cells are
    rationals; the correlation matrix, which needs a square root, is taken
    over the reals.  A [datetime64[ns]] value is the integer count of
    nanoseconds since 1970-01-01, a [datetime.date] is the count of days
    since 1970-01-01.  A Python exception is the [Raise] branch of
    [result]. *)

From Stdlib Require Import ZArith QArith Qminmax Qreals Rbase Rfunctions R_sqrt Lra Lia.
From stdpp Require Import base option list sorting strings gmap.

#[local] Open Scope Z_scope.
#[local] Set Warnings "-clear-no-such-hyp".

(** ** Exceptions *)

Inductive exn : Type :=
  | IndexError   (* tuple index out of range *)
  | KeyError.    (* label missing from a Series index *)

Inductive result (A : Type) : Type :=
  | Ok (a : A)
  | Raise (e : exn).
Arguments Ok {A} a.
Arguments Raise {A} e.

#[global] Instance result_ret : MRet result := λ A, Ok.

#[global] Instance result_bind : MBind result := λ A B k m,
  match m with
  | Ok a => k a
  | Raise e => Raise e
  end.

#[global] Instance exn_eq_dec : EqDecision exn.
Proof. solve_decision. Defined.

(** ** Calendar arithmetic *)

Module Calendar.

Definition NS_PER_HOUR : Z := 3600 * 1000000000.
Definition NS_PER_DAY : Z := 24 * NS_PER_HOUR.

Definition is_leap (y : Z) : bool :=
  (y mod 4 =? 0) && (negb (y mod 100 =? 0) || (y mod 400 =? 0)).

Definition days_in_month (y m : Z) : Z :=
  if m =? 2 then (if is_leap y then 29 else 28)
  else if (m =? 4) || (m =? 6) || (m =? 9) || (m =? 11) then 30
  else 31.

Definition valid_date (y m d : Z) : bool :=
  (1 <=? m) && (m <=? 12) && (1 <=? d) && (d <=? days_in_month y m).

(** Days from 1970-01-01 to the proleptic Gregorian date [y-m-d]. *)
Definition days_from_civil (y m d : Z) : Z :=
  let y' := if m <=? 2 then y - 1 else y in
  let era := y' / 400 in
  let yoe := y' - era * 400 in
  let mp := if 2 <? m then m - 3 else m + 9 in
  let doy := (153 * mp + 2) / 5 + d - 1 in
  let doe := yoe * 365 + yoe / 4 - yoe / 100 + doy in
  era * 146097 + doe - 719468.

(** [Timestamp.date()] and [Series.dt.date]: the calendar day of an
    instant, as a day count. *)
Definition date_of (ts : Z) : Z := ts / NS_PER_DAY.

(** [Series.dt.hour]. *)
Definition hour_of (ts : Z) : Z := (ts / NS_PER_HOUR) mod 24.

(** Bounds of [datetime64[ns]]; the least int64 stands for NaT. *)
Definition in_ns_bounds (ns : Z) : bool :=
  (- 2 ^ 63 <? ns) && (ns <? 2 ^ 63).

(** [pd.to_datetime(v, format="%Y%m%d", errors="coerce")] on the number
    [v]: four digits of year, two of month, two of day.  A number that
    does not read as a date of the calendar, or whose midnight is outside
    [datetime64[ns]], gives NaT. *)
Definition parse_Ymd (v : Z) : option Z :=
  let y := v / 10000 in
  let m := (v / 100) mod 100 in
  let d := v mod 100 in
  if (1000 <=? y) && (y <=? 9999) && valid_date y m d
     && in_ns_bounds (days_from_civil y m d * NS_PER_DAY)
  then Some (days_from_civil y m d * NS_PER_DAY)
  else None.

(** [pd.to_datetime(df[["year","month","day","hour"]], errors="coerce")]:
    pandas assembles the three date columns into the number
    [year*10000 + month*100 + day], reads it back in [%Y%m%d] format, and
    adds the hour column as a time delta. *)
Definition to_datetime (year month day hour : Z) : option Z :=
  midnight ← parse_Ymd (year * 10000 + month * 100 + day);
  Some (midnight + hour * NS_PER_HOUR).

End Calendar.

(** ** Rows *)

(** A row of [dashboard/main.csv]. *)
Record CsvRow : Type := mkCsvRow {
  csv_year : Z;
  csv_month : Z;
  csv_day : Z;
  csv_hour : Z;
  csv_station : string;
  csv_season : string;
  csv_wd : option string;
  csv_PM25 : option Q;
  csv_PM10 : option Q;
  csv_SO2 : option Q;
  csv_NO2 : option Q;
  csv_CO : option Q;
  csv_O3 : option Q;
  csv_TEMP : option Q;
  csv_WSPM : option Q;
  csv_PSI : option Q;
  csv_Air_Quality : option string
}.

(** A row of the frame [df] of the script: the CSV columns, the rebuilt
    [datetime] and, once line 58 has run, [wind_direction_full]. *)
Record Row : Type := mkRow {
  year : Z;
  month : Z;
  day : Z;
  hour : Z;
  station : string;
  season : string;
  wd : option string;
  PM25 : option Q;
  PM10 : option Q;
  SO2 : option Q;
  NO2 : option Q;
  CO : option Q;
  O3 : option Q;
  TEMP : option Q;
  WSPM : option Q;
  PSI : option Q;
  Air_Quality : option string;
  datetime : Z;
  wind_direction_full : option string
}.

Abbreviation DataFrame := (list Row).

#[global] Instance Q_eq_dec : EqDecision Q.
Proof. solve_decision. Defined.

#[global] Instance Row_eq_dec : EqDecision Row.
Proof. solve_decision. Defined.

(** [df["datetime"] = ...] on one row; [wind_direction_full] does not exist
    yet. *)
Definition with_datetime (c : CsvRow) (ts : Z) : Row :=
  {| year := csv_year c; month := csv_month c; day := csv_day c;
     hour := csv_hour c; station := csv_station c; season := csv_season c;
     wd := csv_wd c; PM25 := csv_PM25 c; PM10 := csv_PM10 c;
     SO2 := csv_SO2 c; NO2 := csv_NO2 c; CO := csv_CO c; O3 := csv_O3 c;
     TEMP := csv_TEMP c; WSPM := csv_WSPM c; PSI := csv_PSI c;
     Air_Quality := csv_Air_Quality c;
     datetime := ts; wind_direction_full := None |}.

(** The timestamp pandas derives for a CSV row. *)
Definition derive (c : CsvRow) : option Z :=
  Calendar.to_datetime (csv_year c) (csv_month c) (csv_day c) (csv_hour c).

(** ** Load & Clean Data (lines 19-32) *)

Definition datetime_le (r1 r2 : Row) : Prop := datetime r1 ≤ datetime r2.

#[global] Instance datetime_le_dec : RelDecision datetime_le.
Proof. intros r1 r2. unfold datetime_le. apply _. Defined.

(** [df.dropna(subset=["datetime"])] after the assignment of the column:
    rows whose timestamp is NaT are gone. *)
Definition rebuild_datetime (csv : list CsvRow) : DataFrame :=
  omap (λ c, with_datetime c <$> derive c) csv.

(** [df.sort_values("datetime")].  The order pandas leaves rows of equal
    timestamp in is not fixed by its default sort; nothing below depends
    on it. *)
Definition sort_values_datetime (df : DataFrame) : DataFrame :=
  merge_sort datetime_le df.

Definition load_data (csv : list CsvRow) : DataFrame :=
  sort_values_datetime (rebuild_datetime csv).

(** ** Wind Direction Mapping (lines 39-58) *)

Definition WIND_DIR_ITEMS : list (string * string) :=
  [
    ("N", "North");
    ("NNE", "North-Northeast");
    ("NE", "Northeast");
    ("ENE", "East-Northeast");
    ("E", "East");
    ("ESE", "East-Southeast");
    ("SE", "Southeast");
    ("SSE", "South-Southeast");
    ("S", "South");
    ("SSW", "South-Southwest");
    ("SW", "Southwest");
    ("WSW", "West-Southwest");
    ("W", "West");
    ("WNW", "West-Northwest");
    ("NW", "Northwest");
    ("NNW", "North-Northwest")
  ]%string.

Definition WIND_DIR_MAP : gmap string string := list_to_map WIND_DIR_ITEMS.

(** [Series.map(dict)] on one cell: a code that is not a key of the dict,
    and a missing code, give NaN. *)
Definition map_dict (d : gmap string string) (cell : option string)
  : option string :=
  code ← cell; d !! code.

(** [df["wind_direction_full"] = df["wd"].map(WIND_DIR_MAP)] on one row. *)
Definition add_wind_direction_full (r : Row) : Row :=
  {| year := year r; month := month r; day := day r; hour := hour r;
     station := station r; season := season r; wd := wd r;
     PM25 := PM25 r; PM10 := PM10 r; SO2 := SO2 r; NO2 := NO2 r;
     CO := CO r; O3 := O3 r; TEMP := TEMP r; WSPM := WSPM r; PSI := PSI r;
     Air_Quality := Air_Quality r; datetime := datetime r;
     wind_direction_full := map_dict WIND_DIR_MAP (wd r) |}.

Definition enrich (df : DataFrame) : DataFrame :=
  add_wind_direction_full <$> df.

(** ** Sidebar Filters and Apply Filters (lines 65-104) *)

(** What the sidebar widgets return in one run of the script.  The
    multiselects return lists of options; [st.date_input] called with a
    pair as its value returns a tuple of the dates picked so far: two once
    the range is complete, one while only its start is picked, none when it
    is cleared. *)
Record Selection : Type := mkSelection {
  stations : list string;
  seasons : list string;
  date_range : list Z
}.

(** [t[i]] on a tuple. *)
Definition tuple_get {A} (t : list A) (i : nat) : result A :=
  match t !! i with
  | Some x => Ok x
  | None => Raise IndexError
  end.

(** The mask of lines 100-103 on one row, for the bounds [lo] and [hi]. *)
Definition mask (stations seasons : list string) (lo hi : Z) (r : Row)
  : Prop :=
  station r ∈ stations
  ∧ season r ∈ seasons
  ∧ lo ≤ Calendar.date_of (datetime r)
  ∧ Calendar.date_of (datetime r) ≤ hi.

#[global] Instance mask_dec stations seasons lo hi r :
  Decision (mask stations seasons lo hi r).
Proof. unfold mask. apply _. Defined.

(** [filtered_df = df[...]].  The two subscripts of [date_range] are
    evaluated while the mask is built, whatever the rows are. *)
Definition apply_filters (df : DataFrame) (sel : Selection)
  : result DataFrame :=
  lo ← tuple_get (date_range sel) 0;
  hi ← tuple_get (date_range sel) 1;
  mret (filter (mask (stations sel) (seasons sel) lo hi) df).

(** ** Series reductions *)

(** The numeric columns of [corr_cols]. *)
Inductive NumCol : Type :=
  | cPM25 | cPM10 | cSO2 | cNO2 | cCO | cO3 | cTEMP | cWSPM | cPSI.

#[global] Instance NumCol_eq_dec : EqDecision NumCol.
Proof. solve_decision. Defined.

Definition num (c : NumCol) (r : Row) : option Q :=
  match c with
  | cPM25 => PM25 r
  | cPM10 => PM10 r
  | cSO2 => SO2 r
  | cNO2 => NO2 r
  | cCO => CO r
  | cO3 => O3 r
  | cTEMP => TEMP r
  | cWSPM => WSPM r
  | cPSI => PSI r
  end.

Definition col_name (c : NumCol) : string :=
  match c with
  | cPM25 => "PM2.5"
  | cPM10 => "PM10"
  | cSO2 => "SO2"
  | cNO2 => "NO2"
  | cCO => "CO"
  | cO3 => "O3"
  | cTEMP => "TEMP"
  | cWSPM => "WSPM"
  | cPSI => "PSI"
  end.

Definition pollutants : list NumCol := [cPM25; cPM10; cSO2; cNO2; cCO; cO3].

Definition corr_cols : list NumCol :=
  [cPM25; cPM10; cSO2; cNO2; cCO; cO3; cTEMP; cWSPM; cPSI].

(** The cells of a column that are not NaN, in row order. *)
Definition dropna {A} (col : list (option A)) : list A := omap id col.

Definition Qsum (l : list Q) : Q := foldr Qplus 0%Q l.

(** [Series.mean()]: NaN cells are skipped; NaN when nothing is left. *)
Definition series_mean (col : list (option Q)) : option Q :=
  match dropna col with
  | [] => None
  | x :: xs => Some (Qsum (x :: xs) / inject_Z (Z.of_nat (length (x :: xs))))%Q
  end.

(** [Series.max()]: NaN cells are skipped; NaN when nothing is left. *)
Definition series_max (col : list (option Q)) : option Q :=
  match dropna col with
  | [] => None
  | x :: xs => Some (foldl Qmax x xs)
  end.

(** Python's order on [str]. *)
Definition str_le (s1 s2 : string) : Prop := String.leb s1 s2 = true.

#[global] Instance str_le_dec : RelDecision str_le.
Proof. intros s1 s2. unfold str_le. apply _. Defined.

(** Number of cells of [vals] equal to [v]. *)
Definition occurrences `{EqDecision A} (v : A) (vals : list A) : nat :=
  length (filter (λ x, x = v) vals).

(** [Series.mode()]: NaN cells are skipped, the values with the greatest
    count are kept, and pandas sorts them; the result has a fresh index
    0, 1, ... *)
Definition series_mode (col : list (option string)) : list string :=
  let vals := dropna col in
  let top := max_list ((λ v, occurrences v vals) <$> vals) in
  merge_sort str_le
    (filter (λ v, occurrences v vals = top) (remove_dups vals)).

(** [s[0]] on a Series with the index 0, 1, ...: a label lookup. *)
Definition series_get0 {A} (s : list A) : result A :=
  match s with
  | x :: _ => Ok x
  | [] => Raise KeyError
  end.

(** [groupby(key)[col].mean().reset_index()]: one line per key that occurs,
    keys in ascending order. *)
Definition groupby_mean {K} `{EqDecision K} (le : relation K)
    `{!RelDecision le} (key : Row → K) (val : Row → option Q)
    (df : DataFrame) : list (K * option Q) :=
  (λ k, (k, series_mean (val <$> filter (λ r, key r = k) df)))
    <$> merge_sort le (remove_dups (key <$> df)).

(** Order of [sort_values(ascending=False)] on a numeric Series: greater
    values first, NaN last. *)
Definition mean_desc {K} (a b : K * option Q) : Prop :=
  match a.2, b.2 with
  | Some x, Some y => (y <= x)%Q
  | _, None => True
  | None, Some _ => False
  end.

#[global] Instance mean_desc_dec {K} : RelDecision (@mean_desc K).
Proof.
  intros a b. unfold mean_desc.
  destruct (a.2) as [x|], (b.2) as [y|]; try apply _.
  destruct (Qlt_le_dec x y); [right | left]; [by apply Qlt_not_le | done].
Defined.

(** [Series.value_counts().reset_index()]: the values that occur (NaN
    apart) with their counts, greater counts first. *)
Definition count_desc (a b : string * nat) : Prop := (b.2 ≤ a.2)%nat.

#[global] Instance count_desc_dec : RelDecision count_desc.
Proof. intros a b. unfold count_desc. apply _. Defined.

Definition value_counts (col : list (option string)) : list (string * nat) :=
  let vals := dropna col in
  merge_sort count_desc ((λ v, (v, occurrences v vals)) <$> remove_dups vals).

(** ** Correlation (line 293) *)

Module Corr.
#[local] Open Scope R_scope.

(** [DataFrame.corr()] keeps [min_periods] at 1. *)
Definition min_periods : nat := 1.

(** The observations a pair of columns is compared on: the rows where
    both cells are present. *)
Definition complete_pairs (a b : NumCol) (df : DataFrame) : list (R * R) :=
  omap (λ r, x ← num a r; y ← num b r; Some (Q2R x, Q2R y)) df.

Definition Rsum (l : list R) : R := foldr Rplus 0 l.

Definition Rmean (l : list R) : R := Rsum l / INR (length l).

(** Sum of the products of the deviations from the means. *)
Definition codeviation (ps : list (R * R)) : R :=
  let mx := Rmean (ps.*1) in
  let my := Rmean (ps.*2) in
  Rsum ((λ p, (p.1 - mx) * (p.2 - my)) <$> ps).

Definition sq_deviation (xs : list R) : R :=
  let mx := Rmean xs in
  Rsum ((λ x, (x - mx) * (x - mx)) <$> xs).

Definition clip (v : R) : R :=
  if Rlt_dec 1 v then 1 else if Rlt_dec v (-1) then -1 else v.

(** Pearson's coefficient of the observations [ps]; NaN with fewer than
    [min_periods] observations or when a column has no spread. *)
Definition pearson (ps : list (R * R)) : option R :=
  if decide (length ps < min_periods)%nat then None
  else
    let divisor := sqrt (sq_deviation (ps.*1) * sq_deviation (ps.*2)) in
    if Req_dec_T divisor 0 then None
    else Some (clip (codeviation ps / divisor)).

(** The entry of [filtered_df[corr_cols].corr()] at row [a], column [b]. *)
Definition corr (df : DataFrame) (a b : NumCol) : option R :=
  pearson (complete_pairs a b df).

End Corr.

(** ** The page (lines 114-303) *)

(** What a chart or table is built from. *)
Inductive PlotData : Type :=
  | Frame (rows : DataFrame)
  | MeanByLabel (table : list (string * option Q))
  | MeanByHour (table : list (Z * option Q))
  | Counts (table : list (string * nat)).

Inductive MetricValue : Type :=
  | Number (v : option Q)   (* formatted with two decimals; NaN prints "nan" *)
  | Text (s : string)
  | Count (n : nat).

(** An element put on the page.  Headings carry no data and are left out. *)
Inductive Element : Type :=
  | Metric (label : string) (value : MetricValue)
  | Chart (title : string) (data : PlotData)
  | Heatmap (matrix : NumCol → NumCol → option R)
  | Expander (label : string) (rows : DataFrame).

(** [filtered_df["hour"] = filtered_df["datetime"].dt.hour] on one row. *)
Definition set_hour_from_datetime (r : Row) : Row :=
  {| year := year r; month := month r; day := day r;
     hour := Calendar.hour_of (datetime r);
     station := station r; season := season r; wd := wd r;
     PM25 := PM25 r; PM10 := PM10 r; SO2 := SO2 r; NO2 := NO2 r;
     CO := CO r; O3 := O3 r; TEMP := TEMP r; WSPM := WSPM r; PSI := PSI r;
     Air_Quality := Air_Quality r; datetime := datetime r;
     wind_direction_full := wind_direction_full r |}.

Module Script.

(** The variables of a run that outlive a statement: the base table, the
    filtered frame, and the page rendered so far. *)
Record State : Type := mkState {
  df : DataFrame;
  filtered_df : DataFrame;
  page : list Element
}.

(** Rendering appends to the page and writes no variable. *)
Definition show (e : Element) (st : State) : State :=
  {| df := df st; filtered_df := filtered_df st; page := page st ++ [e] |}.

(** The statements of the script after the filter, in source order. *)
Inductive Step : Type :=
  | KpiAverage              (* line 116 *)
  | KpiMaximum              (* line 117 *)
  | KpiMostCommon           (* line 118 *)
  | KpiTotal                (* line 119 *)
  | PsiTrend                (* lines 126-133 *)
  | PollutantTrend          (* lines 137-144 *)
  | SeasonalPsi             (* lines 151-164 *)
  | SeasonalPollutant       (* lines 168-181 *)
  | WindSpeed               (* lines 188-196 *)
  | WindDirection           (* lines 200-213 *)
  | Temperature             (* lines 217-225 *)
  | StationRanking          (* lines 232-246 *)
  | HourColumn              (* line 253 *)
  | HourlyPsi               (* lines 255-268 *)
  | AirQualityDistribution  (* lines 275-285 *)
  | CorrelationHeatmap      (* lines 292-297 *)
  | RawData.                (* lines 302-303 *)

#[global] Instance Step_eq_dec : EqDecision Step.
Proof. solve_decision. Defined.

Definition steps : list Step :=
  [KpiAverage; KpiMaximum; KpiMostCommon; KpiTotal; PsiTrend;
   PollutantTrend; SeasonalPsi; SeasonalPollutant; WindSpeed;
   WindDirection; Temperature; StationRanking; HourColumn; HourlyPsi;
   AirQualityDistribution; CorrelationHeatmap; RawData].

Definition exec (selected_pollutant : NumCol) (s : Step) (st : State)
  : result State :=
  let view := filtered_df st in
  match s with
  | KpiAverage =>
      Ok (show (Metric "Average PSI" (Number (series_mean (PSI <$> view)))) st)
  | KpiMaximum =>
      Ok (show (Metric "Maximum PSI" (Number (series_max (PSI <$> view)))) st)
  | KpiMostCommon =>
      top ← series_get0 (series_mode (Air_Quality <$> view));
      Ok (show (Metric "Most Common Air Quality" (Text top)) st)
  | KpiTotal =>
      Ok (show (Metric "Total Records" (Count (length view))) st)
  | PsiTrend =>
      Ok (show (Chart "PSI Over Time by Station" (Frame view)) st)
  | PollutantTrend =>
      Ok (show (Chart (col_name selected_pollutant +:+ " Concentration Over Time")
                  (Frame view)) st)
  | SeasonalPsi =>
      Ok (show (Chart "Average PSI by Season"
                  (MeanByLabel (groupby_mean str_le season PSI view))) st)
  | SeasonalPollutant =>
      Ok (show (Chart ("Average " +:+ col_name selected_pollutant +:+ " by Season")
                  (MeanByLabel
                     (groupby_mean str_le season (num selected_pollutant) view)))
            st)
  | WindSpeed =>
      Ok (show (Chart "Wind Speed Impact on PSI" (Frame view)) st)
  | WindDirection =>
      Ok (show (Chart "Wind Direction Frequency"
                  (Counts (value_counts (wind_direction_full <$> view)))) st)
  | Temperature =>
      Ok (show (Chart "Temperature Impact on PSI" (Frame view)) st)
  | StationRanking =>
      Ok (show (Chart "Average PSI by Station"
                  (MeanByLabel
                     (merge_sort mean_desc (groupby_mean str_le station PSI view))))
            st)
  | HourColumn =>
      Ok {| df := df st;
            filtered_df := set_hour_from_datetime <$> view;
            page := page st |}
  | HourlyPsi =>
      Ok (show (Chart "Average PSI by Hour"
                  (MeanByHour (groupby_mean Z.le hour PSI view))) st)
  | AirQualityDistribution =>
      Ok (show (Chart "Air Quality Classification"
                  (Counts (value_counts (Air_Quality <$> view)))) st)
  | CorrelationHeatmap =>
      Ok (show (Heatmap (Corr.corr view)) st)
  | RawData =>
      Ok (show (Expander "View Raw Data" view) st)
  end.

(** The four statements of lines 116-119. *)
Definition kpi_steps : list Step :=
  [KpiAverage; KpiMaximum; KpiMostCommon; KpiTotal].

(** Statements run in order; an exception ends the run. *)
Fixpoint run (selected_pollutant : NumCol) (todo : list Step) (st : State)
  : result State :=
  match todo with
  | [] => Ok st
  | s :: todo' =>
      st' ← exec selected_pollutant s st;
      run selected_pollutant todo' st'
  end.

(** One run of the script on the contents [csv] of the data file, with
    the widgets returning [sel] and [selected_pollutant]: the table is
    loaded and enriched, the frame is filtered and the page is rendered.
    Lines 86-94 only compute the bounds offered by the date widget. *)
Definition main (csv : list CsvRow) (sel : Selection)
    (selected_pollutant : NumCol) : result State :=
  let base := enrich (load_data csv) in
  view ← apply_filters base sel;
  run selected_pollutant steps
    {| df := base; filtered_df := view; page := [] |}.

End Script.

(** ** Widget defaults (lines 65-94) *)

(** [Series.unique()]: the values of a column, each once, in order of first
    appearance. *)
Fixpoint unique `{EqDecision A} (l : list A) : list A :=
  match l with
  | [] => []
  | x :: l' => x :: filter (λ y, y ≠ x) (unique l')
  end.

(** [df["datetime"].min()] and [df["datetime"].max()]; NaT on a table
    without rows. *)
Definition datetime_min (df : DataFrame) : option Z :=
  match datetime <$> df with
  | [] => None
  | t :: ts => Some (foldl Z.min t ts)
  end.

Definition datetime_max (df : DataFrame) : option Z :=
  match datetime <$> df with
  | [] => None
  | t :: ts => Some (foldl Z.max t ts)
  end.

(** [min_date] and [max_date] of lines 86-87. *)
Definition min_date (df : DataFrame) : option Z :=
  Calendar.date_of <$> datetime_min df.

Definition max_date (df : DataFrame) : option Z :=
  Calendar.date_of <$> datetime_max df.

(** What the three filter widgets return as long as the user has not
    touched them: the [default] lists of the two multiselects and the
    [value] pair of the date input.  On a table without rows the two dates
    are NaT and the date input is not modelled. *)
Definition default_selection (df : DataFrame) : option Selection :=
  lo ← min_date df;
  hi ← max_date df;
  Some (mkSelection (unique (station <$> df)) (unique (season <$> df))
          [lo; hi]).

(** ** The tie-break the specification words

    The most frequent value, the first one met in row order among those
    with the greatest count.  It is compared with [series_mode] below. *)
Definition mode_first_encountered (col : list (option string))
  : option string :=
  let vals := dropna col in
  let top := max_list ((λ v, occurrences v vals) <$> vals) in
  head (filter (λ v, occurrences v vals = top) vals).

(** ** Sample tables *)

Module Sample.

(** A CSV row on 2013-03-[d] at hour [h]; the cells the examples do not
    look at are empty. *)
Definition obs (d h : Z) (st se : string) (psi : Q) (aq : string) : CsvRow :=
  {| csv_year := 2013; csv_month := 3; csv_day := d; csv_hour := h;
     csv_station := st; csv_season := se; csv_wd := Some "NNE"%string;
     csv_PM25 := None; csv_PM10 := None; csv_SO2 := None; csv_NO2 := None;
     csv_CO := None; csv_O3 := None; csv_TEMP := None; csv_WSPM := None;
     csv_PSI := Some psi; csv_Air_Quality := Some aq |}.

(** Stations A, B, A with PSI 10, 20, 30. *)
Definition three_rows : list CsvRow :=
  [ obs 1 0 "A" "Spring" 10 "Good";
    obs 1 1 "B" "Spring" 20 "Moderate";
    obs 1 2 "A" "Spring" 30 "Moderate" ].

(** The last hour of 1 March, the first and last hours of 2 March and the
    first hour of 3 March. *)
Definition around_2_march : list CsvRow :=
  [ obs 1 23 "A" "Spring" 10 "Good";
    obs 2 0 "A" "Spring" 20 "Good";
    obs 2 23 "A" "Spring" 30 "Good";
    obs 3 0 "A" "Spring" 40 "Good" ].

(** A file that numbers the hours of a day 1 to 24. *)
Definition hours_1_to_24 : list CsvRow :=
  [ obs 1 23 "A" "Spring" 10 "Good";
    obs 1 24 "A" "Spring" 20 "Good" ].

(** Two categories, once each; "Moderate" is met first. *)
Definition tie_rows : list CsvRow :=
  [ obs 1 0 "A" "Spring" 60 "Moderate";
    obs 1 1 "A" "Spring" 40 "Good" ].

(** 2013-03-01 and 2013-03-02 as dates. *)
Definition march_1 : Z := 15765.
Definition march_2 : Z := 15766.

Definition everything (stations seasons : list string) : Selection :=
  mkSelection stations seasons [march_1; march_1 + 30].

End Sample.

(** Three rows of station A, the second with a wind code that is not in
    the table. *)
Definition unknown_wind_rows : list CsvRow :=
  [ Sample.obs 1 0 "A" "Spring" 10 "Good";
    mkCsvRow 2013 3 1 1 "A" "Spring" (Some "XYZ"%string) None None None
      None None None None None (Some 20%Q) (Some "Good"%string);
    Sample.obs 1 2 "A" "Spring" 30 "Good" ].

(** * Properties *)

(** ** The [result] monad *)

Lemma rbind_Ok {A B} (m : result A) (k : A → result B) (b : B) :
  m ≫= k = Ok b ↔ ∃ a, m = Ok a ∧ k a = Ok b.
Proof.
  destruct m as [a|e]; simpl; split.
  - eauto.
  - intros (a' & Ha & Hk). congruence.
  - done.
  - intros (a' & Ha & Hk). congruence.
Qed.

Lemma tuple_get_Ok {A} (t : list A) i x :
  tuple_get t i = Ok x ↔ t !! i = Some x.
Proof. unfold tuple_get. destruct (t !! i); naive_solver. Qed.

Lemma tuple_get_Raise {A} (t : list A) i e :
  tuple_get t i = Raise e ↔ (length t ≤ i)%nat ∧ e = IndexError.
Proof.
  unfold tuple_get. destruct (t !! i) eqn:E.
  - apply lookup_lt_Some in E. split; [done | lia].
  - rewrite lookup_ge_None in E. split; [by intros [= <-] | by intros [_ ->]].
Qed.

(** ** Days and hours *)

Lemma date_of_spec ts d :
  Calendar.date_of ts = d
  ↔ d * Calendar.NS_PER_DAY ≤ ts < (d + 1) * Calendar.NS_PER_DAY.
Proof.
  unfold Calendar.date_of, Calendar.NS_PER_DAY, Calendar.NS_PER_HOUR.
  pose proof (Z.div_mod ts (24 * (3600 * 1000000000)) ltac:(lia)).
  pose proof (Z.mod_pos_bound ts (24 * (3600 * 1000000000)) ltac:(lia)).
  lia.
Qed.

Lemma date_of_hour d h :
  0 ≤ h ≤ 23
  → Calendar.date_of (d * Calendar.NS_PER_DAY + h * Calendar.NS_PER_HOUR) = d.
Proof.
  intros Hh. apply date_of_spec.
  unfold Calendar.NS_PER_DAY, Calendar.NS_PER_HOUR. lia.
Qed.

Lemma hour_of_hour d h :
  0 ≤ h ≤ 23
  → Calendar.hour_of (d * Calendar.NS_PER_DAY + h * Calendar.NS_PER_HOUR) = h.
Proof.
  intros Hh. unfold Calendar.hour_of, Calendar.NS_PER_DAY.
  replace (d * (24 * Calendar.NS_PER_HOUR) + h * Calendar.NS_PER_HOUR)
    with ((d * 24 + h) * Calendar.NS_PER_HOUR) by lia.
  rewrite Z.div_mul by done.
  rewrite Z.add_comm, Z.mod_add by done. apply Z.mod_small. lia.
Qed.







(** ** Loader *)

Lemma StronglySorted_lookup {A} (R : relation A) (l : list A) i j x y :
  StronglySorted R l → (i < j)%nat → l !! i = Some x → l !! j = Some y → R x y.
Proof.
  intros HS. revert i j.
  induction HS as [|z l HS IH Hall]; intros i j Hij Hi Hj.
  { by rewrite lookup_nil in Hi. }
  destruct i as [|i], j as [|j]; try lia; simpl in *.
  - injection Hi as ->. rewrite Forall_forall in Hall.
    apply Hall. by eapply list_elem_of_lookup_2.
  - apply (IH i j); [lia | done | done].
Qed.

#[global] Instance datetime_le_total : Total datetime_le.
Proof. intros r1 r2. unfold datetime_le. lia. Qed.

#[global] Instance datetime_le_trans : Transitive datetime_le.
Proof. intros r1 r2 r3. unfold datetime_le. lia. Qed.

Lemma elem_of_rebuild_datetime csv r :
  r ∈ rebuild_datetime csv
  ↔ ∃ c ts, c ∈ csv ∧ derive c = Some ts ∧ r = with_datetime c ts.
Proof.
  unfold rebuild_datetime. rewrite list_elem_of_omap. split.
  - intros (c & Hc & Hr). destruct (derive c) as [ts|] eqn:E; [|done].
    simpl in Hr. exists c, ts. naive_solver.
  - intros (c & ts & Hc & E & ->). exists c. by rewrite E.
Qed.


Lemma load_data_Permutation csv : load_data csv ≡ₚ rebuild_datetime csv.
Proof. apply merge_sort_Permutation. Qed.

Lemma load_data_StronglySorted csv : StronglySorted datetime_le (load_data csv).
Proof. apply StronglySorted_merge_sort; apply _. Qed.



(** Rows out of order and a 32 March: the loader drops the impossible
    date and sorts the rest. *)
Example load_data_sample :
  (λ r, (day r, hour r)) <$> load_data
    [ Sample.obs 2 5 "A" "Spring" 1 "Good";
      Sample.obs 32 0 "A" "Spring" 2 "Good";
      Sample.obs 1 7 "A" "Spring" 3 "Good" ]
  = [(1, 7); (2, 5)].
Proof. vm_compute. reflexivity. Qed.

(** ** Filter *)

Lemma apply_filters_pair df stations seasons lo hi :
  apply_filters df (mkSelection stations seasons [lo; hi])
  = Ok (filter (mask stations seasons lo hi) df).
Proof. reflexivity. Qed.

Lemma apply_filters_Ok df sel view :
  apply_filters df sel = Ok view
  ↔ ∃ lo hi, date_range sel !! 0%nat = Some lo
      ∧ date_range sel !! 1%nat = Some hi
      ∧ view = filter (mask (stations sel) (seasons sel) lo hi) df.
Proof.
  unfold apply_filters. rewrite rbind_Ok. split.
  - intros (lo & Hlo & H). apply rbind_Ok in H as (hi & Hhi & H).
    apply tuple_get_Ok in Hlo. apply tuple_get_Ok in Hhi.
    injection H as <-. by exists lo, hi.
  - intros (lo & hi & Hlo & Hhi & ->). exists lo. split.
    + by apply tuple_get_Ok.
    + apply rbind_Ok. exists hi. split; [by apply tuple_get_Ok | done].
Qed.

Lemma occurrences_filter `{EqDecision A} (P : A → Prop)
    `{!∀ x, Decision (P x)} (x : A) (l : list A) :
  occurrences x (filter P l) = if decide (P x) then occurrences x l else 0%nat.
Proof.
  unfold occurrences. rewrite list_filter_filter.
  case_decide as HP.
  - f_equal. apply list_filter_iff. naive_solver.
  - induction l as [|y l IH]; [done|].
    rewrite filter_cons_False; [done | naive_solver].
Qed.

Lemma filter_mask_no_station seasons lo hi df :
  filter (mask [] seasons lo hi) df = [].
Proof.
  induction df as [|r df IH]; [done|].
  rewrite filter_cons_False; [done|]. unfold mask. set_solver.
Qed.

Lemma filter_mask_no_season stations lo hi df :
  filter (mask stations [] lo hi) df = [].
Proof.
  induction df as [|r df IH]; [done|].
  rewrite filter_cons_False; [done|]. unfold mask. set_solver.
Qed.

(** C2. With a complete date interval [start, end], the filter returns a
    frame made of exactly the rows of the table whose station is selected,
    whose season is selected and whose day lies in the interval, bounds
    included: the same rows, as often, in the same order.  With no station
    selected, or no season selected, the frame is empty. *)
Theorem apply_filters_exact (df : DataFrame) (stations seasons : list string)
    (start end_ : Z) :
  ∃ view,
    apply_filters df (mkSelection stations seasons [start; end_]) = Ok view
    ∧ (∀ r, r ∈ view
            ↔ r ∈ df ∧ station r ∈ stations ∧ season r ∈ seasons
              ∧ start ≤ Calendar.date_of (datetime r) ≤ end_)
    ∧ view `sublist_of` df
    ∧ (∀ r, occurrences r view
            = if decide (station r ∈ stations ∧ season r ∈ seasons
                         ∧ start ≤ Calendar.date_of (datetime r) ≤ end_)
              then occurrences r df else 0%nat)
    ∧ apply_filters df (mkSelection [] seasons [start; end_]) = Ok []
    ∧ apply_filters df (mkSelection stations [] [start; end_]) = Ok [].
Proof.
  exists (filter (mask stations seasons start end_) df). split_and!.
  - apply apply_filters_pair.
  - intros r. rewrite list_elem_of_filter. unfold mask. naive_solver.
  - apply sublist_filter.
  - intros r. rewrite occurrences_filter.
    unfold mask. repeat case_decide; naive_solver.
  - by rewrite apply_filters_pair, filter_mask_no_station.
  - by rewrite apply_filters_pair, filter_mask_no_season.
Qed.

(** C9. A frame the filter returned is returned unchanged when the same
    selection is applied to it. *)
Theorem apply_filters_idempotent (df view : DataFrame) (sel : Selection) :
  apply_filters df sel = Ok view → apply_filters view sel = Ok view.
Proof.
  rewrite !apply_filters_Ok. intros (lo & hi & Hlo & Hhi & ->).
  exists lo, hi. split_and!; [done | done |].
  rewrite list_filter_filter. apply list_filter_iff. naive_solver.
Qed.

(** C5. While the date widget holds a single date, the subscript
    [date_range[1]] is out of range and the filter raises [IndexError]; so
    it does when the widget holds no date.  The filter returns a frame only
    for a widget value of two dates or more. *)
Theorem apply_filters_single_date_raises (df : DataFrame)
    (stations seasons : list string) (d : Z) :
  apply_filters df (mkSelection stations seasons [d]) = Raise IndexError
  ∧ apply_filters df (mkSelection stations seasons []) = Raise IndexError
  ∧ (∀ dates, (length dates < 2)%nat
        ↔ apply_filters df (mkSelection stations seasons dates)
          = Raise IndexError).
Proof.
  split_and!; [done | done |].
  intros [|lo [|hi dates]]; simpl; split; try done; try lia.
Qed.

(** The three-row sample while only 1 March has been picked in the date
    widget: the filter, and with it the run of the page, raises. *)
Example single_date_sample :
  apply_filters (enrich (load_data Sample.three_rows))
    (mkSelection ["A"] ["Spring"] [Sample.march_1]) = Raise IndexError
  ∧ Script.main Sample.three_rows
      (mkSelection ["A"] ["Spring"] [Sample.march_1]) cPM25
    = Raise IndexError.
Proof. split; vm_compute; reflexivity. Qed.

Lemma apply_filters_idempotent_witness :
  ∃ view,
    apply_filters (enrich (load_data Sample.three_rows))
      (Sample.everything ["A"] ["Spring"]) = Ok view
    ∧ length view = 2%nat
    ∧ apply_filters view (Sample.everything ["A"] ["Spring"]) = Ok view.
Proof.
  eexists. split; [vm_compute; reflexivity|]. split; [reflexivity|].
  apply (apply_filters_idempotent (enrich (load_data Sample.three_rows))).
  vm_compute. reflexivity.
Defined.

(** ** Single day *)

(** C6. With the interval narrowed to the single day [d], the filter keeps
    exactly the rows of selected station and season whose timestamp lies
    from midnight of [d] up to, not including, the next midnight: every
    hourly row 00:00, 01:00, ..., 23:00 of [d] with a selected station and
    season is kept, and no row of the day before or of the day after is. *)
Theorem single_day_filter (df : DataFrame) (stations seasons : list string)
    (d : Z) :
  ∃ view,
    apply_filters df (mkSelection stations seasons [d; d]) = Ok view
    ∧ (∀ r, r ∈ view
            ↔ r ∈ df ∧ station r ∈ stations ∧ season r ∈ seasons
              ∧ d * Calendar.NS_PER_DAY ≤ datetime r
                < (d + 1) * Calendar.NS_PER_DAY)
    ∧ (∀ r h, r ∈ df → station r ∈ stations → season r ∈ seasons
          → 0 ≤ h ≤ 23
          → datetime r = d * Calendar.NS_PER_DAY + h * Calendar.NS_PER_HOUR
          → r ∈ view)
    ∧ (∀ r, Calendar.date_of (datetime r) = d - 1
            ∨ Calendar.date_of (datetime r) = d + 1 → r ∉ view).
Proof.
  exists (filter (mask stations seasons d d) df).
  assert (Hin : ∀ r, r ∈ filter (mask stations seasons d d) df
            ↔ r ∈ df ∧ station r ∈ stations ∧ season r ∈ seasons
              ∧ Calendar.date_of (datetime r) = d).
  { intros r. rewrite list_elem_of_filter. unfold mask.
    split; intros; destruct_and?; split_and?; try done; lia. }
  split_and!.
  - apply apply_filters_pair.
  - intros r. rewrite Hin, date_of_spec. done.
  - intros r h Hr Hst Hse Hh Hts. apply Hin. split_and!; try done.
    rewrite Hts. by apply date_of_hour.
  - intros r Hr [_ [_ [_ Hd]]]%Hin. lia.
Qed.

Lemma single_day_filter_witness :
  ∃ view,
    apply_filters (enrich (load_data Sample.around_2_march))
      (mkSelection ["A"] ["Spring"] [Sample.march_2; Sample.march_2])
    = Ok view
    ∧ (∀ r, enrich (load_data Sample.around_2_march) !! 2%nat = Some r
            → hour r = 23 ∧ r ∈ view)
    ∧ (∀ r, enrich (load_data Sample.around_2_march) !! 3%nat = Some r
            → hour r = 0 ∧ r ∉ view).
Proof.
  destruct (single_day_filter (enrich (load_data Sample.around_2_march))
              ["A"] ["Spring"] Sample.march_2)
    as (view & Hview & _ & Hhours & Hnext).
  exists view. split_and!; [exact Hview | |].
  - intros r Hr. split; [by vm_compute in Hr; injection Hr as <-|].
    apply (Hhours r 23).
    + by eapply list_elem_of_lookup_2.
    + vm_compute in Hr. injection Hr as <-. by apply (bool_decide_unpack _).
    + vm_compute in Hr. injection Hr as <-. by apply (bool_decide_unpack _).
    + lia.
    + vm_compute in Hr. by injection Hr as <-.
  - intros r Hr. split; [by vm_compute in Hr; injection Hr as <-|].
    apply Hnext. right. vm_compute in Hr. by injection Hr as <-.
Defined.

(** On the sample around 2 March, the single-day selection keeps the rows
    of 00:00 and 23:00 of that day and drops the two neighbours. *)
Example single_day_sample :
  (λ r, (Calendar.date_of (datetime r), hour r))
    <$> filter (mask ["A"] ["Spring"] Sample.march_2 Sample.march_2)
          (enrich (load_data Sample.around_2_march))
  = [(Sample.march_2, 0); (Sample.march_2, 23)].
Proof. vm_compute. reflexivity. Qed.

(** ** Wind direction *)

Lemma WIND_DIR_MAP_lookup_None (code : string) :
  WIND_DIR_MAP !! code = None ↔ code ∉ WIND_DIR_ITEMS.*1.
Proof. unfold WIND_DIR_MAP. by rewrite not_elem_of_list_to_map. Qed.



(** An unrecognised code is no fault: the label is absent. *)
Example unknown_wind_code : map_dict WIND_DIR_MAP (Some "XYZ") = None.
Proof. vm_compute. reflexivity. Qed.

(** ** Order of strings *)

Lemma str_le_refl s : str_le s s.
Proof.
  unfold str_le. destruct (String.leb_total s s); done.
Qed.

#[global] Instance str_le_total : Total str_le.
Proof. intros s1 s2. apply String.leb_total. Qed.

#[global] Instance str_le_trans : Transitive str_le.
Proof.
  unfold str_le, String.leb. intros s1.
  induction s1 as [|a s1 IH]; intros [|b s2] [|c s3]; simpl; try done.
  unfold Ascii.compare.
  destruct (N.compare_spec (Ascii.N_of_ascii a) (Ascii.N_of_ascii b)),
    (N.compare_spec (Ascii.N_of_ascii b) (Ascii.N_of_ascii c)),
    (N.compare_spec (Ascii.N_of_ascii a) (Ascii.N_of_ascii c));
    try done; try lia.
  apply IH.
Qed.

(** ** Mode *)

Section occurrences.
Context `{EqDecision A}.
Implicit Types (v : A) (l : list A).

Lemma occurrences_pos v l : (0 < occurrences v l)%nat ↔ v ∈ l.
Proof.
  unfold occurrences. induction l as [|x l IH].
  - simpl. rewrite elem_of_nil. lia.
  - rewrite filter_cons, elem_of_cons. case_decide; simpl; [naive_solver lia|].
    rewrite IH. naive_solver.
Qed.

Lemma occurrences_le_max v l :
  (occurrences v l ≤ max_list ((λ x, occurrences x l) <$> l))%nat.
Proof.
  destruct (decide (v ∈ l)) as [Hv|Hv].
  - apply max_list_elem_of_le, list_elem_of_fmap. eauto.
  - rewrite <-occurrences_pos in Hv. lia.
Qed.

Lemma max_occurrences_attained l :
  l ≠ [] → ∃ v, v ∈ l ∧ occurrences v l = max_list ((λ x, occurrences x l) <$> l).
Proof.
  intros Hl.
  assert (Hne : (λ x, occurrences x l) <$> l ≠ []) by by destruct l.
  apply max_list_elem_of, list_elem_of_fmap in Hne as (v & Hv & Hin).
  eauto.
Qed.
End occurrences.

Lemma elem_of_series_mode col v :
  v ∈ series_mode col
  ↔ v ∈ dropna col
    ∧ occurrences v (dropna col)
      = max_list ((λ x, occurrences x (dropna col)) <$> dropna col).
Proof.
  unfold series_mode. rewrite merge_sort_Permutation.
  rewrite list_elem_of_filter, elem_of_remove_dups. naive_solver.
Qed.

Lemma series_mode_sorted col : StronglySorted str_le (series_mode col).
Proof. apply StronglySorted_merge_sort; apply _. Qed.

(** The first of the modes: a value of the column with the greatest count,
    and the least such value in the order of strings. *)
Lemma series_mode_get0 col m :
  series_get0 (series_mode col) = Ok m
  → m ∈ dropna col
    ∧ (∀ v, occurrences v (dropna col) ≤ occurrences m (dropna col))%nat
    ∧ (∀ v, occurrences v (dropna col) = occurrences m (dropna col)
            → str_le m v).
Proof.
  intros Hget. pose proof (series_mode_sorted col) as HS.
  assert (Hm : m ∈ series_mode col).
  { destruct (series_mode col) as [|x l]; [done|].
    injection Hget as ->. apply elem_of_cons. by left. }
  apply elem_of_series_mode in Hm as Hm'. destruct Hm' as [Hin Htop].
  split_and!; [done | |].
  - intros v. rewrite Htop. apply occurrences_le_max.
  - intros v Hv.
    assert (Hvm : v ∈ series_mode col).
    { apply elem_of_series_mode. split; [|congruence].
      apply occurrences_pos. rewrite Hv. by apply occurrences_pos. }
    destruct (series_mode col) as [|x l]; [done|].
    injection Hget as ->. apply elem_of_cons in Hvm as [->|Hvl].
    + apply str_le_refl.
    + apply StronglySorted_inv in HS as [_ Hall].
      rewrite Forall_forall in Hall. by apply Hall.
Qed.

(** A column with a value has a mode; a column with none has none. *)
Lemma series_mode_get0_total col :
  (∃ m, series_get0 (series_mode col) = Ok m) ↔ dropna col ≠ [].
Proof.
  split.
  - intros [m Hm%series_mode_get0]. destruct Hm as [Hin _].
    intros Heq. rewrite Heq in Hin. by apply elem_of_nil in Hin.
  - intros Hne. apply max_occurrences_attained in Hne as (v & Hv & Htop).
    assert (Hvm : v ∈ series_mode col) by by apply elem_of_series_mode.
    destruct (series_mode col) as [|x l]; [by apply elem_of_nil in Hvm|].
    by exists x.
Qed.

Lemma series_mode_get0_empty col :
  dropna col = [] → series_get0 (series_mode col) = Raise KeyError.
Proof.
  intros Hcol. destruct (series_get0 (series_mode col)) as [m|e] eqn:E.
  - exfalso. by apply (proj1 (series_mode_get0_total col)); eauto.
  - unfold series_get0 in E. destruct (series_mode col); congruence.
Qed.

(** ** KPI metrics *)

Import Script.

Lemma steps_begin_with_kpi : steps = kpi_steps ++ drop 4 steps.
Proof. reflexivity. Qed.

Lemma run_cons p s todo st :
  run p (s :: todo) st = exec p s st ≫= run p todo.
Proof. reflexivity. Qed.

Lemma run_app p todo1 todo2 st :
  run p (todo1 ++ todo2) st = run p todo1 st ≫= run p todo2.
Proof.
  revert st. induction todo1 as [|s todo1 IH]; intros st; simpl; [done|].
  destruct (exec p s st) as [st'|e]; simpl; [apply IH | done].
Qed.

Lemma run_kpi_steps p st :
  run p kpi_steps st
  = top ← series_get0 (series_mode (Air_Quality <$> filtered_df st));
    Ok {| df := df st;
          filtered_df := filtered_df st;
          page := page st ++
            [ Metric "Average PSI" (Number (series_mean (PSI <$> filtered_df st)));
              Metric "Maximum PSI" (Number (series_max (PSI <$> filtered_df st)));
              Metric "Most Common Air Quality" (Text top);
              Metric "Total Records" (Count (length (filtered_df st))) ] |}.
Proof.
  destruct st as [base view shown]. simpl.
  destruct (series_get0 (series_mode (Air_Quality <$> view))) as [top|e];
    simpl; [|done].
  unfold show; simpl. by rewrite <-!app_assoc.
Qed.

(** C1. With no station selected the filtered frame is empty; the average
    and the maximum are then shown as NaN, the subscript [mode()[0]] raises
    [KeyError], and the run of the page ends on that exception, before the
    record count is shown. *)
Theorem kpi_empty_selection_raises (csv : list CsvRow) (seasons : list string)
    (lo hi : Z) (p : NumCol) :
  let base := enrich (load_data csv) in
  let st := {| df := base; filtered_df := []; page := [] |} in
  apply_filters base (mkSelection [] seasons [lo; hi]) = Ok []
  ∧ exec p KpiAverage st = Ok (show (Metric "Average PSI" (Number None)) st)
  ∧ exec p KpiMaximum st = Ok (show (Metric "Maximum PSI" (Number None)) st)
  ∧ exec p KpiMostCommon st = Raise KeyError
  ∧ run p kpi_steps st = Raise KeyError
  ∧ main csv (mkSelection [] seasons [lo; hi]) p = Raise KeyError.
Proof.
  intros base st.
  assert (Hview : apply_filters base (mkSelection [] seasons [lo; hi]) = Ok []).
  { by rewrite apply_filters_pair, filter_mask_no_station. }
  split_and!; try done.
  unfold main. fold base. rewrite Hview. reflexivity.
Qed.

(** The three-row sample with every station deselected. *)
Example kpi_empty_selection_sample :
  main Sample.three_rows (Sample.everything [] ["Spring"]) cPM25
  = Raise KeyError.
Proof. vm_compute. reflexivity. Qed.

(** The same exception on a frame with rows, when no row has a category. *)
Lemma kpi_most_common_raises p st :
  dropna (Air_Quality <$> filtered_df st) = []
  → exec p KpiMostCommon st = Raise KeyError.
Proof. intros H. simpl. by rewrite series_mode_get0_empty. Qed.

(** ** What a statement writes *)

Lemma exec_Ok p s st :
  s ≠ KpiMostCommon → ∃ st', exec p s st = Ok st'.
Proof. destruct s; intros Hs; try done; simpl; eauto. Qed.

Lemma exec_frame p s st st' :
  exec p s st = Ok st'
  → df st' = df st
    ∧ filtered_df st'
      = (if decide (s = HourColumn)
         then set_hour_from_datetime <$> filtered_df st
         else filtered_df st)
    ∧ ∃ shown, page st' = page st ++ shown.
Proof.
  destruct s; simpl; intros H;
    try (injection H as <-; split_and!; [done | done | by eexists]).
  - destruct (series_get0 _) as [top|]; [|done]. simpl in H.
    injection H as <-. split_and!; [done | done | by eexists].
  - injection H as <-. split_and!; [done | done |].
    exists []. by rewrite app_nil_r.
Qed.

Lemma run_without_hour_column p todo st st' :
  HourColumn ∉ todo → run p todo st = Ok st'
  → df st' = df st ∧ filtered_df st' = filtered_df st.
Proof.
  revert st. induction todo as [|s todo IH]; intros st Hnot Hrun; simpl in *.
  - by injection Hrun as <-.
  - apply not_elem_of_cons in Hnot as [Hs Hnot].
    apply rbind_Ok in Hrun as (st1 & Hs1 & Hrun).
    apply exec_frame in Hs1 as (Hdf & Hview & _).
    rewrite decide_False in Hview by done.
    apply IH in Hrun as [-> ->]; done.
Qed.

Lemma steps_around_hour_column :
  steps = take 12 steps ++ HourColumn :: drop 13 steps
  ∧ (HourColumn ∉ take 12 steps) ∧ (HourColumn ∉ drop 13 steps).
Proof. split_and!; [done | |]; vm_compute; set_solver. Qed.

Lemma run_steps_frame p st st' :
  run p steps st = Ok st'
  → df st' = df st
    ∧ filtered_df st' = set_hour_from_datetime <$> filtered_df st.
Proof.
  destruct steps_around_hour_column as (Hsteps & Hbefore & Hafter).
  rewrite Hsteps, run_app. intros (st1 & H1 & Hrun)%rbind_Ok.
  rewrite run_cons in Hrun. apply rbind_Ok in Hrun as (st2 & H2 & Hrun).
  apply run_without_hour_column in H1 as [Hdf1 Hview1]; [|done].
  apply exec_frame in H2 as (Hdf2 & Hview2 & _).
  apply run_without_hour_column in Hrun as [Hdf3 Hview3]; [|done].
  rewrite decide_True in Hview2 by done. split; congruence.
Qed.

(** The run ends without exception as soon as the frame has a category. *)
Lemma run_steps_Ok p st :
  dropna (Air_Quality <$> filtered_df st) ≠ [] → ∃ st', run p steps st = Ok st'.
Proof.
  intros [top Htop]%series_mode_get0_total.
  destruct st as [base view shown]. simpl in *. rewrite Htop. simpl. eauto.
Qed.

Lemma run_page_grows p todo st st' :
  run p todo st = Ok st' → ∃ shown, page st' = page st ++ shown.
Proof.
  revert st. induction todo as [|s todo IH]; intros st Hrun.
  - injection Hrun as <-. exists []. by rewrite app_nil_r.
  - rewrite run_cons in Hrun. apply rbind_Ok in Hrun as (st1 & H1 & Hrun).
    apply exec_frame in H1 as (_ & _ & shown1 & Hpage1).
    apply IH in Hrun as [shown Hpage]. exists (shown1 ++ shown).
    by rewrite Hpage, Hpage1, app_assoc.
Qed.

(** On a tie the specification's first-encountered value and the value the
    KPI shows differ: with "Moderate" met before "Good", once each, the KPI
    shows "Good". *)
Lemma kpi_mode_not_first_encountered :
  Air_Quality <$> enrich (load_data Sample.tie_rows)
  = [Some "Moderate"; Some "Good"]
  ∧ mode_first_encountered (Air_Quality <$> enrich (load_data Sample.tie_rows))
    = Some "Moderate"
  ∧ exec cPM25 KpiMostCommon
      {| df := enrich (load_data Sample.tie_rows);
         filtered_df := enrich (load_data Sample.tie_rows);
         page := [] |}
    = Ok {| df := enrich (load_data Sample.tie_rows);
            filtered_df := enrich (load_data Sample.tie_rows);
            page := [Metric "Most Common Air Quality" (Text "Good")] |}
  ∧ ¬ (∀ col m, series_get0 (series_mode col) = Ok m
                → mode_first_encountered col = Some m).
Proof.
  split_and!; try (vm_compute; reflexivity).
  intros H. specialize (H [Some "Moderate"; Some "Good"] "Good").
  vm_compute in H. by specialize (H eq_refl).
Qed.

(** C3 (amended). When the filter returns a frame in which some row has a
    category, the run of the page ends without exception and its first four
    elements are, in order, the mean and the maximum of the frame's PSI
    column, the first mode of its Air_Quality column and its number of
    rows: all four are taken from the filtered frame, not from the base
    table.  The category shown occurs in the frame, no category occurs more
    often, and among the categories that occur as often it is the least in
    the order of strings. *)
Theorem kpi_values (csv : list CsvRow) (sel : Selection) (p : NumCol)
    (view : DataFrame) :
  apply_filters (enrich (load_data csv)) sel = Ok view
  → dropna (Air_Quality <$> view) ≠ []
  → ∃ st' top,
      main csv sel p = Ok st'
      ∧ take 4 (page st')
        = [ Metric "Average PSI" (Number (series_mean (PSI <$> view)));
            Metric "Maximum PSI" (Number (series_max (PSI <$> view)));
            Metric "Most Common Air Quality" (Text top);
            Metric "Total Records" (Count (length view)) ]
      ∧ top ∈ dropna (Air_Quality <$> view)
      ∧ (∀ v, occurrences v (dropna (Air_Quality <$> view))
              ≤ occurrences top (dropna (Air_Quality <$> view)))%nat
      ∧ (∀ v, occurrences v (dropna (Air_Quality <$> view))
              = occurrences top (dropna (Air_Quality <$> view))
              → str_le top v).
Proof.
  intros Hview Hne.
  destruct (run_steps_Ok p
              {| df := enrich (load_data csv); filtered_df := view; page := [] |}
              Hne) as [st' Hrun].
  apply series_mode_get0_total in Hne as [top Htop].
  exists st', top. split; [|split].
  - unfold main. rewrite Hview. exact Hrun.
  - rewrite steps_begin_with_kpi, run_app, run_kpi_steps in Hrun.
    apply rbind_Ok in Hrun as (st1 & H1 & Hrun).
    apply rbind_Ok in H1 as (top' & Htop' & H1).
    cbn [filtered_df] in Htop'. rewrite Htop in Htop'.
    injection Htop' as <-. injection H1 as <-.
    apply run_page_grows in Hrun as [shown ->]. reflexivity.
  - by apply series_mode_get0.
Qed.

Lemma kpi_values_witness :
  ∃ view st' top,
    apply_filters (enrich (load_data Sample.three_rows))
      (Sample.everything ["A"] ["Spring"]) = Ok view
    ∧ PSI <$> view = [Some 10%Q; Some 30%Q]
    ∧ main Sample.three_rows (Sample.everything ["A"] ["Spring"]) cPM25
      = Ok st'
    ∧ take 4 (page st')
      = [ Metric "Average PSI" (Number (series_mean (PSI <$> view)));
          Metric "Maximum PSI" (Number (series_max (PSI <$> view)));
          Metric "Most Common Air Quality" (Text top);
          Metric "Total Records" (Count (length view)) ]
    ∧ top ∈ dropna (Air_Quality <$> view).
Proof.
  eexists.
  destruct (kpi_values Sample.three_rows (Sample.everything ["A"] ["Spring"])
              cPM25 _ ltac:(vm_compute; reflexivity) ltac:(by vm_compute))
    as (st' & top & Hmain & Hpage & Hin & _).
  exists st', top.
  split_and!; [vm_compute; reflexivity | reflexivity | exact Hmain
              | exact Hpage | exact Hin].
Defined.

(** The scenario of three rows at stations A, B, A with PSI 10, 20, 30:
    the selection of station A keeps PSI 10 and 30, of mean 20 and maximum
    30, in 2 records. *)
Example station_A_scenario :
  ∃ view mean,
    apply_filters (enrich (load_data Sample.three_rows))
      (Sample.everything ["A"] ["Spring"]) = Ok view
    ∧ PSI <$> view = [Some 10%Q; Some 30%Q]
    ∧ series_mean (PSI <$> view) = Some mean ∧ (mean == 20)%Q
    ∧ series_max (PSI <$> view) = Some 30%Q
    ∧ length view = 2%nat.
Proof.
  eexists. eexists.
  split_and!; [vm_compute; reflexivity | reflexivity | reflexivity | done
              | reflexivity | reflexivity].
Qed.

(** ** The hour column *)

Lemma parse_Ymd_midnight v ts :
  Calendar.parse_Ymd v = Some ts → ∃ d, ts = d * Calendar.NS_PER_DAY.
Proof.
  unfold Calendar.parse_Ymd. case_match; [|done]. intros [= <-]. eauto.
Qed.

Lemma to_datetime_hour y m d h ts :
  Calendar.to_datetime y m d h = Some ts → 0 ≤ h ≤ 23
  → Calendar.hour_of ts = h.
Proof.
  unfold Calendar.to_datetime. intros Hts Hh.
  destruct (Calendar.parse_Ymd _) as [mid|] eqn:E; [|done].
  apply parse_Ymd_midnight in E as [d' ->]. simpl in Hts.
  injection Hts as <-. by apply hour_of_hour.
Qed.

(** A loaded row whose hour field is one of 0, ..., 23 carries that hour in
    its timestamp: the assignment of line 253 rewrites it to itself. *)
Lemma set_hour_loaded_row csv r :
  r ∈ enrich (load_data csv) → 0 ≤ hour r ≤ 23 → set_hour_from_datetime r = r.
Proof.
  unfold enrich. intros (r0 & -> & Hr0)%list_elem_of_fmap Hh.
  rewrite load_data_Permutation in Hr0.
  apply elem_of_rebuild_datetime in Hr0 as (c & ts & _ & Hts & ->).
  unfold set_hour_from_datetime, add_wind_direction_full; simpl in *.
  f_equal. by eapply to_datetime_hour.
Qed.

(** In a file that numbers the hours 1 to 24, the row of hour 24 gets the
    timestamp of the next midnight, and the assignment of line 253 turns
    its hour column from 24 into 0: the filtered frame is written to after
    it was derived. *)
Lemma hour_column_rewrites_view :
  ∃ view st',
    apply_filters (enrich (load_data Sample.hours_1_to_24))
      (Sample.everything ["A"] ["Spring"]) = Ok view
    ∧ hour <$> view = [23; 24]
    ∧ exec cPM25 HourColumn
        {| df := enrich (load_data Sample.hours_1_to_24);
           filtered_df := view; page := [] |}
      = Ok st'
    ∧ hour <$> filtered_df st' = [23; 0]
    ∧ filtered_df st' ≠ view
    ∧ ¬ (∀ p s st1 st2, exec p s st1 = Ok st2
                        → filtered_df st2 = filtered_df st1).
Proof.
  eexists. eexists.
  split_and!; [vm_compute; reflexivity | reflexivity | reflexivity
              | reflexivity | by vm_compute |].
  intros H.
  specialize (H cPM25 HourColumn
    {| df := []; filtered_df := enrich (load_data Sample.hours_1_to_24);
       page := [] |} _ eq_refl).
  by vm_compute in H.
Qed.

(** C4 (amended). When the filter returns a frame in which some row has a
    category, the run of the page ends without exception; the frame it
    works on is the one the filter derived from the base table in this run,
    and the base table is the same at the end.  A statement of the page
    other than the assignment of line 253 leaves the filtered frame as it
    was; that assignment replaces the frame by the same rows, in the same
    order, with the hour column set to the hour of each row's timestamp and
    no other column touched.  A row whose hour field is one of 0, ..., 23
    is rewritten to itself. *)
Theorem filtered_view_frame (csv : list CsvRow) (sel : Selection)
    (p : NumCol) (view : DataFrame) :
  apply_filters (enrich (load_data csv)) sel = Ok view
  → dropna (Air_Quality <$> view) ≠ []
  → ∃ st',
      main csv sel p = Ok st'
      ∧ df st' = enrich (load_data csv)
      ∧ filtered_df st' = set_hour_from_datetime <$> view
      ∧ (∀ s st1 st2, exec p s st1 = Ok st2
           → df st2 = df st1
             ∧ (s ≠ HourColumn → filtered_df st2 = filtered_df st1)
             ∧ (s = HourColumn
                → filtered_df st2 = set_hour_from_datetime <$> filtered_df st1))
      ∧ (∀ r, set_hour_from_datetime r
              = {| year := year r; month := month r; day := day r;
                   hour := Calendar.hour_of (datetime r);
                   station := station r; season := season r; wd := wd r;
                   PM25 := PM25 r; PM10 := PM10 r; SO2 := SO2 r;
                   NO2 := NO2 r; CO := CO r; O3 := O3 r; TEMP := TEMP r;
                   WSPM := WSPM r; PSI := PSI r;
                   Air_Quality := Air_Quality r; datetime := datetime r;
                   wind_direction_full := wind_direction_full r |})
      ∧ (∀ r, r ∈ view → 0 ≤ hour r ≤ 23 → set_hour_from_datetime r = r).
Proof.
  intros Hview Hne.
  destruct (run_steps_Ok p
              {| df := enrich (load_data csv); filtered_df := view; page := [] |}
              Hne) as [st' Hrun].
  exists st'. apply run_steps_frame in Hrun as Hframe.
  destruct Hframe as [Hdf Hfiltered]. split_and!.
  - unfold main. rewrite Hview. exact Hrun.
  - exact Hdf.
  - exact Hfiltered.
  - intros s st1 st2 (Hdf' & Hview' & _)%exec_frame. split_and!; [done | |].
    + intros Hs. by rewrite decide_False in Hview'.
    + intros Hs. by rewrite decide_True in Hview'.
  - reflexivity.
  - intros r Hr Hh. apply (set_hour_loaded_row csv); [|done].
    apply apply_filters_Ok in Hview as (lo & hi & _ & _ & ->).
    by apply list_elem_of_filter in Hr as [_ Hr].
Qed.

Lemma filtered_view_frame_witness :
  ∃ view st',
    apply_filters (enrich (load_data Sample.three_rows))
      (Sample.everything ["A"; "B"] ["Spring"]) = Ok view
    ∧ length view = 3%nat
    ∧ main Sample.three_rows (Sample.everything ["A"; "B"] ["Spring"]) cO3
      = Ok st'
    ∧ filtered_df st' = set_hour_from_datetime <$> view.
Proof.
  eexists.
  destruct (filtered_view_frame Sample.three_rows
              (Sample.everything ["A"; "B"] ["Spring"]) cO3 _
              ltac:(vm_compute; reflexivity) ltac:(by vm_compute))
    as (st' & Hmain & _ & Hfiltered & _).
  exists st'.
  split_and!; [vm_compute; reflexivity | reflexivity | exact Hmain
              | exact Hfiltered].
Defined.

(** ** Correlation matrix *)

Section corr.
Import Corr.
#[local] Open Scope R_scope.
Implicit Types (ps : list (R * R)) (xs : list R) (a b : NumCol).

Lemma Rsum_nonneg xs : Forall (λ x, 0 <= x) xs → 0 <= Rsum xs.
Proof.
  unfold Rsum. induction 1 as [|x xs Hx _ IH]; simpl; lra.
Qed.

Lemma Rsum_zero_nonneg xs :
  Forall (λ x, 0 <= x) xs → Rsum xs = 0 → Forall (λ x, x = 0) xs.
Proof.
  induction 1 as [|x xs Hx Hxs IH]; intros Hsum; [constructor|].
  pose proof (Rsum_nonneg xs Hxs) as Hge. unfold Rsum in *. simpl in Hsum.
  constructor; [lra|]. apply IH. lra.
Qed.

Lemma sq_deviation_nonneg xs : 0 <= sq_deviation xs.
Proof.
  unfold sq_deviation. apply Rsum_nonneg, Forall_fmap, Forall_true.
  intros x. apply (Rle_0_sqr (x - Rmean xs)).
Qed.

Lemma complete_pairs_swap a b df :
  complete_pairs b a df = prod_swap <$> complete_pairs a b df.
Proof.
  unfold complete_pairs. induction df as [|r df IH]; [done|].
  cbn [omap list_omap fmap list_fmap].
  destruct (num a r) as [x|], (num b r) as [y|]; simpl; by rewrite IH.
Qed.

Lemma fst_swap ps : (prod_swap <$> ps).*1 = ps.*2.
Proof. rewrite <-list_fmap_compose. by apply list_fmap_ext; intros ? []. Qed.

Lemma snd_swap ps : (prod_swap <$> ps).*2 = ps.*1.
Proof. rewrite <-list_fmap_compose. by apply list_fmap_ext; intros ? []. Qed.

Lemma codeviation_swap ps : codeviation (prod_swap <$> ps) = codeviation ps.
Proof.
  unfold codeviation. rewrite fst_swap, snd_swap, <-list_fmap_compose.
  f_equal. apply list_fmap_ext. intros _ [x y] _. simpl. ring.
Qed.

Lemma pearson_swap ps : pearson (prod_swap <$> ps) = pearson ps.
Proof.
  unfold pearson.
  rewrite length_fmap, fst_swap, snd_swap, codeviation_swap.
  by rewrite (Rmult_comm (sq_deviation (ps.*2))).
Qed.

Lemma corr_symmetric df a b : corr df a b = corr df b a.
Proof. unfold corr. by rewrite (complete_pairs_swap a b), pearson_swap. Qed.

(** Rows with a cell missing in one of the two columns play no part. *)
Lemma complete_pairs_filter a b df :
  complete_pairs a b
    (filter (λ r, is_Some (num a r) ∧ is_Some (num b r)) df)
  = complete_pairs a b df.
Proof.
  unfold complete_pairs. induction df as [|r df IH]; [done|].
  rewrite filter_cons. case_decide as Hr.
  - cbn [omap list_omap]. by rewrite IH.
  - cbn [omap list_omap]. rewrite IH.
    destruct (num a r) as [x|], (num b r) as [y|]; simpl; try done.
    destruct Hr. split; eauto.
Qed.

Lemma complete_pairs_diagonal a df :
  Forall (λ p, p.1 = p.2) (complete_pairs a a df).
Proof.
  unfold complete_pairs. induction df as [|r df IH]; [constructor|].
  cbn [omap list_omap]. destruct (num a r) as [x|]; simpl; [|done].
  by constructor.
Qed.

Lemma clip_1 : clip 1 = 1.
Proof. unfold clip. repeat destruct (Rlt_dec _ _); lra. Qed.

Lemma pearson_diagonal ps :
  Forall (λ p, p.1 = p.2) ps
  → pearson ps
    = if decide (length ps < min_periods)%nat then None
      else if Req_dec_T (sq_deviation (ps.*1)) 0 then None else Some 1.
Proof.
  intros Hdiag.
  assert (Hsnd : ps.*2 = ps.*1).
  { induction Hdiag as [|[x y] ps Hp _ IH]; [done|].
    rewrite !fmap_cons, IH. simpl in *. by subst. }
  assert (Hco : codeviation ps = sq_deviation (ps.*1)).
  { unfold codeviation, sq_deviation. rewrite Hsnd, <-list_fmap_compose.
    f_equal. apply list_fmap_ext. intros i [x y] Hi. simpl.
    rewrite Forall_lookup in Hdiag. specialize (Hdiag _ _ Hi).
    simpl in Hdiag. by subst. }
  unfold pearson. rewrite Hsnd, Hco.
  rewrite sqrt_square by apply sq_deviation_nonneg.
  case_decide; [done|].
  destruct (Req_dec_T _ _) as [|Hne]; [done|].
  f_equal. unfold Rdiv. rewrite Rinv_r by done. apply clip_1.
Qed.

(** Cauchy-Schwarz, by induction on the observations. *)
Lemma cauchy_schwarz_step u v A B C :
  0 <= A → 0 <= B → C * C <= A * B
  → (u * v + C) * (u * v + C) <= (u * u + A) * (v * v + B).
Proof.
  intros HA HB HC.
  assert (H1 : 2 * (u * v * C) <= u * u * B + A * (v * v)).
  { assert (Hx : 0 <= u * u * B + A * (v * v)) by nra.
    assert (Hsq : (2 * (u * v * C)) * (2 * (u * v * C))
                  <= (u * u * B + A * (v * v)) * (u * u * B + A * (v * v))).
    { pose proof (Rle_0_sqr (u * u * B - A * (v * v))) as H0.
      unfold Rsqr in H0.
      assert (0 <= u * u * (v * v)) by nra.
      nra. }
    nra. }
  nra.
Qed.

Lemma cauchy_schwarz (f g : R * R → R) ps :
  Rsum ((λ p, f p * g p) <$> ps) * Rsum ((λ p, f p * g p) <$> ps)
  <= Rsum ((λ p, f p * f p) <$> ps) * Rsum ((λ p, g p * g p) <$> ps).
Proof.
  induction ps as [|p ps IH]; [unfold Rsum; simpl; lra|].
  rewrite !fmap_cons. unfold Rsum in *. cbn [foldr].
  apply cauchy_schwarz_step; [| |done].
  - apply (Rsum_nonneg ((λ p, f p * f p) <$> ps)), Forall_fmap, Forall_true.
    intros q. apply (Rle_0_sqr (f q)).
  - apply (Rsum_nonneg ((λ p, g p * g p) <$> ps)), Forall_fmap, Forall_true.
    intros q. apply (Rle_0_sqr (g q)).
Qed.

Lemma codeviation_bound ps :
  codeviation ps * codeviation ps
  <= sq_deviation (ps.*1) * sq_deviation (ps.*2).
Proof.
  unfold codeviation, sq_deviation. rewrite <-!list_fmap_compose.
  apply (cauchy_schwarz (λ p, p.1 - Rmean (ps.*1)) (λ p, p.2 - Rmean (ps.*2))).
Qed.

Lemma clip_id v : -1 <= v <= 1 → clip v = v.
Proof. intros Hv. unfold clip. repeat destruct (Rlt_dec _ _); lra. Qed.

(** When the entry is a number, it is Pearson's quotient, between -1 and
    1: clipping never changes it. *)
Lemma pearson_Some ps v :
  pearson ps = Some v
  → (min_periods ≤ length ps)%nat
    ∧ 0 < sqrt (sq_deviation (ps.*1) * sq_deviation (ps.*2))
    ∧ v = codeviation ps / sqrt (sq_deviation (ps.*1) * sq_deviation (ps.*2))
    ∧ -1 <= v <= 1.
Proof.
  unfold pearson. case_decide as Hn; [done|].
  destruct (Req_dec_T _ _) as [|Hne]; [done|]. intros [= <-].
  set (d := sqrt (sq_deviation (ps.*1) * sq_deviation (ps.*2))) in *.
  assert (Hd : 0 < d).
  { pose proof (sqrt_pos (sq_deviation (ps.*1) * sq_deviation (ps.*2))).
    fold d in H. lra. }
  assert (Habs : Rabs (codeviation ps) <= d).
  { rewrite <-sqrt_Rsqr_abs. apply sqrt_le_1_alt. apply codeviation_bound. }
  assert (Hq : -1 <= codeviation ps / d <= 1).
  { assert (Hc : - d <= codeviation ps <= d).
    { unfold Rabs in Habs. destruct (Rcase_abs _); lra. }
    assert (Heq : codeviation ps / d * d = codeviation ps) by (field; lra).
    generalize dependent (codeviation ps / d). intros q Hq. nra. }
  rewrite clip_id by done. split_and!; [lia | done | done | lra | lra].
Qed.

Lemma Rsum_const c xs :
  Forall (λ x, x = c) xs → Rsum xs = INR (length xs) * c.
Proof.
  unfold Rsum. induction 1 as [|x xs -> _ IH]; [simpl; lra|].
  cbn [foldr]. rewrite IH, length_cons, S_INR. lra.
Qed.

Lemma sq_deviation_zero xs :
  sq_deviation xs = 0 ↔ Forall (λ x, x = Rmean xs) xs.
Proof.
  unfold sq_deviation. split.
  - intros Hsum. apply Rsum_zero_nonneg in Hsum.
    + rewrite Forall_fmap in Hsum. eapply Forall_impl; [exact Hsum|].
      intros x Hx. simpl in Hx. nra.
    + apply Forall_fmap, Forall_true. intros x.
      apply (Rle_0_sqr (x - Rmean xs)).
  - intros Hall. rewrite (Rsum_const 0); [lra|].
    apply Forall_fmap. eapply Forall_impl; [exact Hall|].
    intros x Hx. simpl. rewrite <-Hx. lra.
Qed.

(** A column has no spread exactly when its values are all the same. *)
Lemma sq_deviation_spread xs :
  sq_deviation xs ≠ 0 ↔ ∃ x y, x ∈ xs ∧ y ∈ xs ∧ x ≠ y.
Proof.
  rewrite sq_deviation_zero. split.
  - intros Hnot. destruct xs as [|x0 xs]; [by destruct Hnot|].
    destruct (Forall_Exists_dec (λ y, y = x0) (λ y, y ≠ x0)
                (λ y, Req_dec_T y x0) xs) as [Hall|Hex].
    + destruct Hnot.
      assert (Hall' : Forall (λ y, y = x0) (x0 :: xs)) by by constructor.
      assert (Hmean : Rmean (x0 :: xs) = x0).
      { unfold Rmean. rewrite (Rsum_const x0) by done.
        field. apply not_0_INR. done. }
      by rewrite Hmean.
    + apply Exists_exists in Hex as (y & Hy & Hne).
      exists y, x0. split_and!; [by right | by left | done].
  - intros (x & y & Hx & Hy & Hne) Hall. rewrite Forall_forall in Hall.
    apply Hne. by rewrite (Hall x Hx), (Hall y Hy).
Qed.
End corr.

Lemma corr_diagonal df a :
  Corr.corr df a a = Some 1%R
  ↔ ∃ x y, x ∈ (Corr.complete_pairs a a df).*1
           ∧ y ∈ (Corr.complete_pairs a a df).*1 ∧ x ≠ y.
Proof.
  unfold Corr.corr.
  rewrite pearson_diagonal by apply complete_pairs_diagonal.
  rewrite <-sq_deviation_spread. case_decide as Hn.
  - split; [done|]. intros Hne. destruct Hne.
    destruct (Corr.complete_pairs a a df); [done|].
    unfold Corr.min_periods in Hn. simpl in Hn. lia.
  - destruct (Req_dec_T _ _); naive_solver.
Qed.

Lemma corr_diagonal_cases df a :
  Corr.corr df a a = Some 1%R ∨ Corr.corr df a a = None.
Proof.
  unfold Corr.corr.
  rewrite pearson_diagonal by apply complete_pairs_diagonal.
  case_decide; [by right|]. destruct (Req_dec_T _ _); eauto.
Qed.

Lemma pearson_None ps :
  Corr.pearson ps = None
  ↔ (length ps < Corr.min_periods)%nat
    ∨ Corr.sq_deviation (ps.*1) = 0%R ∨ Corr.sq_deviation (ps.*2) = 0%R.
Proof.
  unfold Corr.pearson. case_decide as Hn; [naive_solver|].
  destruct (Req_dec_T _ _) as [Hz|Hnz].
  - split; [intros _|done]. right.
    apply sqrt_eq_0 in Hz.
    + by apply Rmult_integral in Hz.
    + apply Rmult_le_pos; apply sq_deviation_nonneg.
  - split; [done|]. intros [?|[Hx|Hy]]; [done | |]; destruct Hnz.
    + by rewrite Hx, Rmult_0_l, sqrt_0.
    + by rewrite Hy, Rmult_0_r, sqrt_0.
Qed.

(** A column without any value has NaN on the diagonal, and so has a
    column observed once: on the sample of three rows no row has PM2.5,
    and station B has a single PSI. *)
Lemma corr_diagonal_not_one :
  Corr.corr (enrich (load_data Sample.three_rows)) cPM25 cPM25 = None
  ∧ Corr.corr
      (filter (λ r, station r = "B") (enrich (load_data Sample.three_rows)))
      cPSI cPSI = None
  ∧ Corr.corr [] cPSI cPSI = None
  ∧ ¬ (∀ df a, Corr.corr df a a = Some 1%R).
Proof.
  assert (H0 : Corr.corr [] cPSI cPSI = None) by reflexivity.
  split_and!; [reflexivity | | done | ].
  - destruct (corr_diagonal_cases
                (filter (λ r, station r = "B")
                   (enrich (load_data Sample.three_rows))) cPSI)
      as [H1|H1]; [|done].
    apply corr_diagonal in H1 as (x & y & Hx & Hy & Hne). destruct Hne.
    change ((Corr.complete_pairs cPSI cPSI
               (filter (λ r, station r = "B")
                  (enrich (load_data Sample.three_rows)))).*1)
      with [Q2R 20] in Hx, Hy.
    apply list_elem_of_singleton in Hx, Hy. congruence.
  - intros H. specialize (H [] cPSI). congruence.
Qed.

(** C10 (amended). Over the reals, an entry of the matrix is computed from
    the rows where both columns have a value; it is Pearson's quotient of
    these observations, a number between -1 and 1, and it is NaN exactly
    when there is no such row or one of the two columns has no spread on
    them.  The matrix is symmetric.  A diagonal entry is 1 when the column
    holds two different values, and NaN otherwise.  The matrix ranges over
    the nine numeric columns. *)
Theorem corr_matrix_spec (df : DataFrame) (a b : NumCol) :
  let ps := Corr.complete_pairs a b df in
  Corr.corr (filter (λ r, is_Some (num a r) ∧ is_Some (num b r)) df) a b
  = Corr.corr df a b
  ∧ (∀ v, Corr.corr df a b = Some v
          → v = (Corr.codeviation ps
                 / sqrt (Corr.sq_deviation (ps.*1) * Corr.sq_deviation (ps.*2)))%R
            ∧ (-1 <= v <= 1)%R)
  ∧ (Corr.corr df a b = None
     ↔ (length ps < 1)%nat
       ∨ Corr.sq_deviation (ps.*1) = 0%R ∨ Corr.sq_deviation (ps.*2) = 0%R)
  ∧ Corr.corr df a b = Corr.corr df b a
  ∧ (Corr.corr df a a = Some 1%R ∨ Corr.corr df a a = None)
  ∧ (Corr.corr df a a = Some 1%R
     ↔ ∃ x y, x ∈ (Corr.complete_pairs a a df).*1
              ∧ y ∈ (Corr.complete_pairs a a df).*1 ∧ x ≠ y)
  ∧ a ∈ corr_cols ∧ NoDup corr_cols ∧ length corr_cols = 9%nat.
Proof.
  intros ps. split_and!.
  - unfold Corr.corr. by rewrite complete_pairs_filter.
  - intros v Hv. apply pearson_Some in Hv. naive_solver.
  - apply pearson_None.
  - apply corr_symmetric.
  - apply corr_diagonal_cases.
  - apply corr_diagonal.
  - destruct a; set_solver.
  - by apply (bool_decide_unpack _).
  - reflexivity.
Qed.

Lemma corr_matrix_spec_witness :
  Corr.corr (enrich (load_data Sample.three_rows)) cPSI cPSI = Some 1%R.
Proof.
  destruct (corr_matrix_spec (enrich (load_data Sample.three_rows)) cPSI cPSI)
    as (_ & _ & _ & _ & _ & Hdiagonal & _).
  apply Hdiagonal. exists (Q2R 10), (Q2R 30).
  change ((Corr.complete_pairs cPSI cPSI
             (enrich (load_data Sample.three_rows))).*1)
    with [Q2R 10; Q2R 20; Q2R 30].
  split_and!; [set_solver | set_solver |].
  unfold Q2R. simpl. lra.
Defined.

(** * More of the script *)

(** ** Widget defaults *)

Section unique.
Context `{EqDecision A}.
Implicit Types (x : A) (l : list A).

Lemma elem_of_unique x l : x ∈ unique l ↔ x ∈ l.
Proof.
  induction l as [|y l IH]; [done|]. cbn [unique].
  rewrite !elem_of_cons, list_elem_of_filter, IH.
  destruct (decide (x = y)); naive_solver.
Qed.

Lemma NoDup_unique l : NoDup (unique l).
Proof.
  induction l as [|y l IH]; [constructor|]. cbn [unique].
  constructor; [|by apply NoDup_filter].
  rewrite list_elem_of_filter. naive_solver.
Qed.
End unique.

Lemma foldl_min_le t ts : foldl Z.min t ts ≤ t ∧ Forall (λ u, foldl Z.min t ts ≤ u) ts.
Proof.
  revert t. induction ts as [|u ts IH]; intros t; simpl; [split; [lia|done]|].
  destruct (IH (Z.min t u)) as [H1 H2]. split; [lia|].
  constructor; [lia|done].
Qed.

Lemma foldl_max_ge t ts : t ≤ foldl Z.max t ts ∧ Forall (λ u, u ≤ foldl Z.max t ts) ts.
Proof.
  revert t. induction ts as [|u ts IH]; intros t; simpl; [split; [lia|done]|].
  destruct (IH (Z.max t u)) as [H1 H2]. split; [lia|].
  constructor; [lia|done].
Qed.

Lemma date_of_mono t u : t ≤ u → Calendar.date_of t ≤ Calendar.date_of u.
Proof. intros H. apply Z.div_le_mono; [done | exact H]. Qed.

Lemma datetime_min_le df t r :
  datetime_min df = Some t → r ∈ df → t ≤ datetime r.
Proof.
  unfold datetime_min. intros Hmin Hr.
  apply (list_elem_of_fmap_2 datetime) in Hr.
  destruct (datetime <$> df) as [|t0 ts]; [done|]. injection Hmin as <-.
  destruct (foldl_min_le t0 ts) as [H0 Hall]. rewrite Forall_forall in Hall.
  apply elem_of_cons in Hr as [->|Hr]; [done | by apply Hall].
Qed.

Lemma datetime_max_ge df t r :
  datetime_max df = Some t → r ∈ df → datetime r ≤ t.
Proof.
  unfold datetime_max. intros Hmax Hr.
  apply (list_elem_of_fmap_2 datetime) in Hr.
  destruct (datetime <$> df) as [|t0 ts]; [done|]. injection Hmax as <-.
  destruct (foldl_max_ge t0 ts) as [H0 Hall]. rewrite Forall_forall in Hall.
  apply elem_of_cons in Hr as [->|Hr]; [done | by apply Hall].
Qed.

Lemma filter_all {A} (P : A → Prop) `{!∀ x, Decision (P x)} (l : list A) :
  Forall P l → filter P l = l.
Proof.
  induction 1 as [|x l Hx _ IH]; [done|]. by rewrite filter_cons_True, IH.
Qed.

(** X1. With the widgets left at their defaults (every station and season
    of the table selected, the date range from the first to the last day
    of the data) the filter returns the whole table, in order. *)
Theorem default_selection_keeps_all (df : DataFrame) (sel : Selection) :
  default_selection df = Some sel → apply_filters df sel = Ok df.
Proof.
  unfold default_selection, min_date, max_date. intros Hsel.
  destruct (datetime_min df) as [tmin|] eqn:Hmin; [|done].
  destruct (datetime_max df) as [tmax|] eqn:Hmax; [|done].
  simpl in Hsel. injection Hsel as <-. rewrite apply_filters_pair.
  f_equal. apply filter_all, Forall_forall. intros r Hr. split_and!.
  - apply elem_of_unique. by apply list_elem_of_fmap_2.
  - apply elem_of_unique. by apply list_elem_of_fmap_2.
  - apply date_of_mono. by eapply datetime_min_le.
  - apply date_of_mono. by eapply datetime_max_ge.
Qed.

Lemma default_selection_keeps_all_witness :
  ∃ sel,
    default_selection (enrich (load_data Sample.around_2_march)) = Some sel
    ∧ stations sel = ["A"] ∧ seasons sel = ["Spring"]
    ∧ date_range sel = [Sample.march_1; Sample.march_2 + 1]
    ∧ apply_filters (enrich (load_data Sample.around_2_march)) sel
      = Ok (enrich (load_data Sample.around_2_march)).
Proof.
  eexists. split; [vm_compute; reflexivity|].
  split_and!; [reflexivity | reflexivity | reflexivity |].
  apply default_selection_keeps_all. vm_compute. reflexivity.
Defined.

(** ** The filter as an operation *)

Lemma filter_fmap_commute {A} (P : A → Prop) `{!∀ x, Decision (P x)}
    (f : A → A) (l : list A) :
  (∀ x, P (f x) ↔ P x) → filter P (f <$> l) = f <$> filter P l.
Proof.
  intros Hf. induction l as [|x l IH]; [done|].
  rewrite fmap_cons, !filter_cons.
  destruct (decide (P x)) as [Hx|Hx].
  - rewrite decide_True by by apply Hf. by rewrite fmap_cons, IH.
  - rewrite decide_False by by rewrite Hf. done.
Qed.

Lemma sublist_filter_impl {A} (P Q : A → Prop) `{!∀ x, Decision (P x)}
    `{!∀ x, Decision (Q x)} (l : list A) :
  (∀ x, P x → Q x) → filter P l `sublist_of` filter Q l.
Proof.
  intros HPQ. induction l as [|x l IH]; [done|].
  rewrite !filter_cons. destruct (decide (P x)) as [Hx|Hx].
  - rewrite decide_True by auto. by constructor.
  - case_decide; [by constructor | done].
Qed.

(** X2. Widening a selection never loses a row: with more stations, more
    seasons and a date interval that contains the old one, the new frame
    contains the old frame as a sub-sequence. *)
Theorem filter_widen (df : DataFrame) (stations stations' : list string)
    (seasons seasons' : list string) (lo hi lo' hi' : Z) :
  stations ⊆ stations' → seasons ⊆ seasons' → lo' ≤ lo → hi ≤ hi'
  → ∃ view view',
      apply_filters df (mkSelection stations seasons [lo; hi]) = Ok view
      ∧ apply_filters df (mkSelection stations' seasons' [lo'; hi']) = Ok view'
      ∧ view `sublist_of` view'
      ∧ (length view ≤ length view')%nat.
Proof.
  intros Hst Hse Hlo Hhi. eexists. eexists.
  split; [apply apply_filters_pair|]. split; [apply apply_filters_pair|].
  assert (Hsub : filter (mask stations seasons lo hi) df
                 `sublist_of` filter (mask stations' seasons' lo' hi') df).
  { apply sublist_filter_impl. unfold mask. intros r (? & ? & ? & ?).
    split_and!; [by apply Hst | by apply Hse | lia | lia]. }
  split; [done | by apply sublist_length].
Qed.

Lemma filter_widen_witness :
  ∃ view view',
    apply_filters (enrich (load_data Sample.three_rows))
      (mkSelection ["A"] ["Spring"] [Sample.march_1; Sample.march_1])
    = Ok view
    ∧ apply_filters (enrich (load_data Sample.three_rows))
        (mkSelection ["A"; "B"] ["Spring"] [Sample.march_1; Sample.march_2])
      = Ok view'
    ∧ view `sublist_of` view'
    ∧ (length view ≤ length view')%nat.
Proof.
  apply filter_widen; [set_solver | set_solver | done | ].
  unfold Sample.march_1, Sample.march_2. lia.
Defined.

(** X3. Two selections applied one after the other give the same outcome
    in either order: the same frame, or [IndexError] when one of the two
    date tuples is too short. *)
Theorem filters_commute (df : DataFrame) (sel1 sel2 : Selection) :
  (apply_filters df sel1 ≫= λ view, apply_filters view sel2)
  = (apply_filters df sel2 ≫= λ view, apply_filters view sel1).
Proof.
  destruct sel1 as [st1 se1 dr1], sel2 as [st2 se2 dr2].
  destruct dr1 as [|lo1 [|hi1 dr1]], dr2 as [|lo2 [|hi2 dr2]]; try done.
  unfold apply_filters. simpl. f_equal.
  rewrite !list_filter_filter. apply list_filter_iff. naive_solver.
Qed.

(** X4. A date interval whose end lies before its start selects nothing. *)
Theorem filter_inverted_range (df : DataFrame) (stations seasons : list string)
    (lo hi : Z) :
  hi < lo → apply_filters df (mkSelection stations seasons [lo; hi]) = Ok [].
Proof.
  intros Hlt. rewrite apply_filters_pair. f_equal.
  induction df as [|r df IH]; [done|].
  rewrite filter_cons_False; [done|]. unfold mask. lia.
Qed.

Lemma filter_inverted_range_witness :
  apply_filters (enrich (load_data Sample.three_rows))
    (mkSelection ["A"; "B"] ["Spring"] [Sample.march_2; Sample.march_1])
  = Ok [].
Proof. apply filter_inverted_range. unfold Sample.march_1, Sample.march_2. lia. Defined.

(** X5. The filter reads the station, the season and the timestamp only:
    it gives the same rows whether the wind-direction label is added
    before or after it, and whether the hour column has been rewritten from
    the timestamp or not. *)
Theorem filter_ignores_derived_columns (df : DataFrame) (sel : Selection) :
  apply_filters (enrich df) sel
  = (apply_filters df sel ≫= λ view : DataFrame, Ok (enrich view))
  ∧ apply_filters (set_hour_from_datetime <$> df) sel
    = (apply_filters df sel
       ≫= λ view : DataFrame, Ok (set_hour_from_datetime <$> view)).
Proof.
  destruct sel as [st se dr]. destruct dr as [|lo [|hi dr]]; try done.
  unfold apply_filters, enrich. simpl. split; f_equal.
  - by apply filter_fmap_commute.
  - by apply filter_fmap_commute.
Qed.

(** ** Bounds of the date widget *)

Lemma foldl_min_sorted t ts :
  StronglySorted Z.le (t :: ts) → foldl Z.min t ts = t.
Proof.
  revert t. induction ts as [|u ts IH]; intros t HS; [done|].
  apply StronglySorted_inv in HS as [HS Hall].
  apply Forall_cons in Hall as [Htu Hall]. simpl.
  rewrite Z.min_l by done. apply IH. constructor; [|done].
  by apply StronglySorted_inv in HS as [HS _].
Qed.

Lemma foldl_max_sorted t ts :
  StronglySorted Z.le (t :: ts) → Some (foldl Z.max t ts) = last (t :: ts).
Proof.
  revert t. induction ts as [|u ts IH]; intros t HS; [done|].
  apply StronglySorted_inv in HS as [HS Hall].
  apply Forall_cons in Hall as [Htu Hall]. simpl foldl.
  rewrite Z.max_r by done. rewrite last_cons_cons. by apply IH.
Qed.

Lemma datetime_enrich df : datetime <$> enrich df = datetime <$> df.
Proof.
  unfold enrich. rewrite <-list_fmap_compose. by apply list_fmap_ext.
Qed.

Lemma load_data_datetimes_sorted csv :
  StronglySorted Z.le (datetime <$> enrich (load_data csv)).
Proof.
  rewrite datetime_enrich.
  apply (StronglySorted_fmap datetime datetime_le Z.le); [done|].
  apply load_data_StronglySorted.
Qed.

(** X6. On the loaded table the bounds offered by the date widget are the
    days of its first and of its last row, and the day of every row lies
    between the two. *)
Theorem loaded_date_bounds (csv : list CsvRow) :
  min_date (enrich (load_data csv))
  = (λ r, Calendar.date_of (datetime r)) <$> head (enrich (load_data csv))
  ∧ max_date (enrich (load_data csv))
    = (λ r, Calendar.date_of (datetime r)) <$> last (enrich (load_data csv))
  ∧ (∀ r lo hi, r ∈ enrich (load_data csv)
        → min_date (enrich (load_data csv)) = Some lo
        → max_date (enrich (load_data csv)) = Some hi
        → lo ≤ Calendar.date_of (datetime r) ≤ hi).
Proof.
  pose proof (load_data_datetimes_sorted csv) as HS.
  split_and!.
  - unfold min_date, datetime_min.
    destruct (enrich (load_data csv)) as [|r df]; [done|].
    rewrite fmap_cons in *. by rewrite foldl_min_sorted.
  - unfold max_date, datetime_max.
    destruct (enrich (load_data csv)) as [|r df] eqn:E; [done|].
    rewrite fmap_cons in *. rewrite foldl_max_sorted by done.
    rewrite <-(fmap_cons datetime), fmap_last.
    by destruct (last (r :: df)).
  - unfold min_date, max_date. intros r lo hi Hr Hlo Hhi.
    destruct (datetime_min _) as [tmin|] eqn:Hmin; [|done].
    destruct (datetime_max _) as [tmax|] eqn:Hmax; [|done].
    injection Hlo as <-. injection Hhi as <-.
    split; apply date_of_mono;
      [by eapply datetime_min_le | by eapply datetime_max_ge].
Qed.

Lemma loaded_date_bounds_witness :
  min_date (enrich (load_data Sample.around_2_march)) = Some Sample.march_1
  ∧ max_date (enrich (load_data Sample.around_2_march))
    = Some (Sample.march_2 + 1)
  ∧ ∀ r, r ∈ enrich (load_data Sample.around_2_march)
         → Sample.march_1 ≤ Calendar.date_of (datetime r) ≤ Sample.march_2 + 1.
Proof.
  destruct (loaded_date_bounds Sample.around_2_march) as (Hmin & Hmax & Hall).
  split_and!; [by rewrite Hmin | by rewrite Hmax |].
  intros r Hr. apply Hall; [done | by rewrite Hmin | by rewrite Hmax].
Defined.

(** ** Outcome of a run *)

Lemma run_steps_Raise p st :
  dropna (Air_Quality <$> filtered_df st) = []
  → run p steps st = Raise KeyError.
Proof.
  destruct st as [base view shown]. cbn [filtered_df]. intros Hempty.
  change steps with ([KpiAverage; KpiMaximum] ++ KpiMostCommon :: drop 3 steps).
  rewrite run_app.
  change (run p [KpiAverage; KpiMaximum] ?st)
    with (Ok (show (Metric "Maximum PSI" (Number (series_max (PSI <$> view))))
            (show (Metric "Average PSI" (Number (series_mean (PSI <$> view))))
               {| df := base; filtered_df := view; page := shown |}))).
  cbn [mbind result_bind]. rewrite run_cons.
  cbn [exec show filtered_df]. by rewrite series_mode_get0_empty.
Qed.

(** X7. A run of the page has three outcomes.  It raises [IndexError]
    exactly when the date widget holds fewer than two dates; it raises
    [KeyError] exactly when the filter returns a frame in which no row has
    an air-quality category (an empty frame in particular); in every other
    case it renders the page to the end. *)
Theorem main_outcome (csv : list CsvRow) (sel : Selection) (p : NumCol) :
  (main csv sel p = Raise IndexError ↔ (length (date_range sel) < 2)%nat)
  ∧ (main csv sel p = Raise KeyError
     ↔ ∃ view, apply_filters (enrich (load_data csv)) sel = Ok view
               ∧ dropna (Air_Quality <$> view) = [])
  ∧ ((∃ st', main csv sel p = Ok st')
     ↔ ∃ view, apply_filters (enrich (load_data csv)) sel = Ok view
               ∧ dropna (Air_Quality <$> view) ≠ []).
Proof.
  unfold main.
  destruct (apply_filters (enrich (load_data csv)) sel) as [view|e] eqn:Hview.
  - assert (Hlen : ¬ (length (date_range sel) < 2)%nat).
    { apply apply_filters_Ok in Hview as (lo & hi & Hlo & Hhi & _).
      apply lookup_lt_Some in Hhi. lia. }
    cbn [mbind result_bind].
    destruct (decide (dropna (Air_Quality <$> view) = [])) as [Hna|Hna].
    + rewrite run_steps_Raise by done. split_and!.
      * split; [done | lia].
      * split; [eauto | done].
      * split; [by intros [? ?] | by intros (v & [= <-] & ?)].
    + destruct (run_steps_Ok p
                  {| df := enrich (load_data csv); filtered_df := view;
                     page := [] |} Hna) as [st' Hrun].
      rewrite Hrun. split_and!.
      * split; [done | lia].
      * split; [done | by intros (v & [= <-] & ?)].
      * split; eauto.
  - assert (Hlen : (length (date_range sel) < 2)%nat ∧ e = IndexError).
    { unfold apply_filters in Hview.
      destruct (date_range sel) as [|lo [|hi dr]]; simpl in *;
        [split; [lia | congruence].. | done]. }
    destruct Hlen as [Hlen ->]. cbn [mbind result_bind]. split_and!.
    + done.
    + split; [done | by intros (? & ? & ?)].
    + split; [by intros [? ?] | by intros (? & ? & ?)].
Qed.



(** ** Group means *)

Section groupby.
Context {K : Type} `{EqDecision K} (le : relation K) `{!RelDecision le}.
Context (key : Row → K) (val : Row → option Q).
Implicit Types (df : DataFrame) (k : K).

Lemma groupby_mean_keys_eq df :
  (groupby_mean le key val df).*1 = merge_sort le (remove_dups (key <$> df)).
Proof.
  unfold groupby_mean. rewrite <-list_fmap_compose.
  rewrite <-(list_fmap_id (merge_sort le _)) at 2. by apply list_fmap_ext.
Qed.

Lemma elem_of_groupby_mean df k m :
  (k, m) ∈ groupby_mean le key val df
  ↔ (∃ r, r ∈ df ∧ key r = k)
    ∧ m = series_mean (val <$> filter (λ r, key r = k) df).
Proof.
  unfold groupby_mean. rewrite list_elem_of_fmap.
  setoid_rewrite merge_sort_Permutation.
  setoid_rewrite elem_of_remove_dups.
  setoid_rewrite list_elem_of_fmap. naive_solver.
Qed.

Lemma remove_dups_constant (l : list K) k :
  l ≠ [] → Forall (λ x, x = k) l → remove_dups l = [k].
Proof.
  intros Hne Hall.
  assert (Hin : ∀ x, x ∈ remove_dups l → x = k).
  { intros x Hx. rewrite elem_of_remove_dups in Hx.
    rewrite Forall_forall in Hall. by apply Hall. }
  assert (Hk : k ∈ remove_dups l).
  { apply elem_of_remove_dups. destruct l as [|x l]; [done|].
    apply Forall_cons in Hall as [-> _]. by left. }
  pose proof (NoDup_remove_dups l) as Hnd.
  destruct (remove_dups l) as [|a [|b l']].
  - by apply elem_of_nil in Hk.
  - f_equal. apply Hin. by left.
  - assert (a = k) as -> by (apply Hin; by left).
    assert (b = k) as -> by (apply Hin; right; by left).
    apply NoDup_cons in Hnd as [Hnotin _]. destruct Hnotin. by left.
Qed.
End groupby.

(** X9. A table of group means has one line per key that occurs in the
    frame and no line for any other key: the keys are in ascending order
    without repetition, and the value beside a key is the mean of the rows
    with that key.  An empty frame gives an empty table. *)
Theorem groupby_mean_table {K : Type} `{EqDecision K} (le : relation K)
    `{!RelDecision le} `{!Total le} `{!Transitive le}
    (key : Row → K) (val : Row → option Q) (df : DataFrame) :
  NoDup (groupby_mean le key val df).*1
  ∧ StronglySorted le (groupby_mean le key val df).*1
  ∧ (∀ k, k ∈ (groupby_mean le key val df).*1 ↔ ∃ r, r ∈ df ∧ key r = k)
  ∧ (∀ k m, (k, m) ∈ groupby_mean le key val df
            → m = series_mean (val <$> filter (λ r, key r = k) df))
  ∧ (groupby_mean le key val df = [] ↔ df = []).
Proof.
  rewrite groupby_mean_keys_eq. split_and!.
  - rewrite merge_sort_Permutation. apply NoDup_remove_dups.
  - by apply StronglySorted_merge_sort.
  - intros k. rewrite merge_sort_Permutation, elem_of_remove_dups.
    rewrite list_elem_of_fmap. naive_solver.
  - intros k m Hkm. by apply elem_of_groupby_mean in Hkm as [_ ->].
  - split.
    + intros Hnil. destruct df as [|r df]; [done|]. exfalso.
      assert (Hin : (key r, series_mean (val <$> filter (λ r', key r' = key r) (r :: df)))
                    ∈ groupby_mean le key val (r :: df)).
      { apply elem_of_groupby_mean. split; [|done]. exists r. split; [by left|done]. }
      rewrite Hnil in Hin. by apply elem_of_nil in Hin.
    + by intros ->.
Qed.

Lemma groupby_mean_table_witness :
  (groupby_mean str_le station PSI (enrich (load_data Sample.three_rows))).*1
  = ["A"; "B"]
  ∧ NoDup (groupby_mean str_le station PSI
             (enrich (load_data Sample.three_rows))).*1
  ∧ StronglySorted str_le
      (groupby_mean str_le station PSI
         (enrich (load_data Sample.three_rows))).*1.
Proof.
  split; [reflexivity|].
  destruct (groupby_mean_table str_le station PSI
              (enrich (load_data Sample.three_rows))) as (Hnd & Hsorted & _).
  by split.
Defined.

(** X10. When every row of the frame has the same key, the table of group
    means has a single line, and its value is the plain mean of the column
    over the frame. *)
Theorem groupby_mean_single_group {K : Type} `{EqDecision K} (le : relation K)
    `{!RelDecision le} (key : Row → K) (val : Row → option Q)
    (df : DataFrame) (k : K) :
  df ≠ [] → Forall (λ r, key r = k) df
  → groupby_mean le key val df = [(k, series_mean (val <$> df))].
Proof.
  intros Hne Hall. unfold groupby_mean.
  rewrite (remove_dups_constant _ k).
  - simpl. by rewrite filter_all.
  - by destruct df.
  - by apply Forall_fmap.
Qed.

Lemma groupby_mean_single_group_witness :
  groupby_mean str_le season PSI (enrich (load_data Sample.three_rows))
  = [("Spring"%string,
      series_mean (PSI <$> enrich (load_data Sample.three_rows)))].
Proof.
  apply groupby_mean_single_group; [done|].
  by apply (bool_decide_unpack _).
Defined.

(** ** Station ranking and hourly pattern *)

#[global] Instance mean_desc_total {K} : Total (@mean_desc K).
Proof.
  intros a b. unfold mean_desc.
  destruct (a.2) as [x|], (b.2) as [y|]; auto.
  destruct (Qlt_le_dec x y); [right | left]; [by apply Qlt_le_weak | done].
Qed.

#[global] Instance mean_desc_trans {K} : Transitive (@mean_desc K).
Proof.
  intros a b c. unfold mean_desc.
  destruct (a.2) as [x|], (b.2) as [y|], (c.2) as [z|]; try done.
  intros Hyx Hzy. by apply (Qle_trans _ y).
Qed.

(** X11. The station ranking lists every station of the frame once, with
    its mean PSI, from the greatest mean to the least; stations without any
    PSI value come last. *)
Theorem station_ranking_sorted (view : DataFrame) :
  merge_sort mean_desc (groupby_mean str_le station PSI view)
  ≡ₚ groupby_mean str_le station PSI view
  ∧ NoDup (merge_sort mean_desc (groupby_mean str_le station PSI view)).*1
  ∧ (∀ s, s ∈ (merge_sort mean_desc (groupby_mean str_le station PSI view)).*1
          ↔ ∃ r, r ∈ view ∧ station r = s)
  ∧ (∀ i j s1 s2 m1 m2, (i < j)%nat
        → merge_sort mean_desc (groupby_mean str_le station PSI view) !! i
          = Some (s1, m1)
        → merge_sort mean_desc (groupby_mean str_le station PSI view) !! j
          = Some (s2, m2)
        → match m1, m2 with
          | Some x, Some y => (y <= x)%Q
          | _, None => True
          | None, Some _ => False
          end).
Proof.
  destruct (groupby_mean_table str_le station PSI view)
    as (Hnd & _ & Hkeys & _).
  split_and!.
  - apply merge_sort_Permutation.
  - by rewrite merge_sort_Permutation.
  - intros s. by rewrite merge_sort_Permutation.
  - intros i j s1 s2 m1 m2 Hij Hi Hj.
    apply (StronglySorted_lookup mean_desc
             (merge_sort mean_desc (groupby_mean str_le station PSI view))
             i j (s1, m1) (s2, m2));
      [apply StronglySorted_merge_sort; apply _ | done | done | done].
Qed.

Lemma hour_of_range ts : 0 ≤ Calendar.hour_of ts ≤ 23.
Proof.
  unfold Calendar.hour_of.
  pose proof (Z.mod_pos_bound (ts / Calendar.NS_PER_HOUR) 24 ltac:(done)). lia.
Qed.

(** X12. The hourly chart is keyed by the hour of the timestamp: whatever
    the hour column of the file holds, its points lie at hours 0 to 23, in
    ascending order without repetition, so there are at most 24 of them. *)
Theorem hourly_chart_hours (view : DataFrame) :
  Forall (λ point, 0 ≤ point.1 ≤ 23)
    (groupby_mean Z.le hour PSI (set_hour_from_datetime <$> view))
  ∧ NoDup (groupby_mean Z.le hour PSI (set_hour_from_datetime <$> view)).*1
  ∧ StronglySorted Z.le
      (groupby_mean Z.le hour PSI (set_hour_from_datetime <$> view)).*1
  ∧ (length (groupby_mean Z.le hour PSI (set_hour_from_datetime <$> view))
     ≤ 24)%nat.
Proof.
  destruct (groupby_mean_table Z.le hour PSI (set_hour_from_datetime <$> view))
    as (Hnd & Hsorted & Hkeys & _).
  assert (Hrange : ∀ k,
            k ∈ (groupby_mean Z.le hour PSI (set_hour_from_datetime <$> view)).*1
            → 0 ≤ k ≤ 23).
  { intros k (r & Hr & <-)%Hkeys.
    apply list_elem_of_fmap in Hr as (r0 & -> & _). apply hour_of_range. }
  split_and!; [| done | done |].
  - apply Forall_forall. intros [k m] Hin. apply Hrange.
    by apply (list_elem_of_fmap_2 fst) in Hin.
  - rewrite <-(length_fmap fst).
    change 24%nat with (length (seqZ 0 24)).
    apply submseteq_length, NoDup_submseteq; [done|].
    intros k Hk%Hrange. apply elem_of_seqZ. lia.
Qed.

(** On the file that numbers the hours 1 to 24 the chart has its points at
    hours 0 and 23. *)
Example hourly_chart_sample :
  (groupby_mean Z.le hour PSI
     (set_hour_from_datetime <$> enrich (load_data Sample.hours_1_to_24))).*1
  = [0; 23].
Proof. vm_compute. reflexivity. Qed.

(** Station B, of mean 30, is ranked before station A, of mean 10. *)
Example station_ranking_sample :
  (merge_sort mean_desc
     (groupby_mean str_le station PSI
        (enrich (load_data [ Sample.obs 1 0 "A" "Spring" 10 "Good";
                             Sample.obs 1 1 "B" "Spring" 30 "Good" ])))).*1
  = ["B"; "A"].
Proof. vm_compute. reflexivity. Qed.

(** ** Frequency tables *)

#[global] Instance count_desc_total : Total count_desc.
Proof. intros a b. unfold count_desc. lia. Qed.

#[global] Instance count_desc_trans : Transitive count_desc.
Proof. intros a b c. unfold count_desc. lia. Qed.

Lemma length_filter_disjoint {A} (P Q : A → Prop) `{!∀ x, Decision (P x)}
    `{!∀ x, Decision (Q x)} (l : list A) :
  (∀ x, P x → Q x → False)
  → (length (filter P l) + length (filter Q l)
     = length (filter (λ x, P x ∨ Q x) l))%nat.
Proof.
  intros Hdisj. induction l as [|x l IH]; [done|].
  rewrite !filter_cons.
  destruct (decide (P x)) as [HP|HP], (decide (Q x)) as [HQ|HQ].
  - by destruct (Hdisj x).
  - rewrite decide_True by auto. simpl. lia.
  - rewrite decide_True by auto. simpl. lia.
  - rewrite decide_False by tauto. done.
Qed.

Lemma sum_occurrences `{EqDecision A} (ks l : list A) :
  NoDup ks
  → sum_list ((λ v, occurrences v l) <$> ks)
    = length (filter (λ x, x ∈ ks) l).
Proof.
  induction 1 as [|k ks Hk _ IH].
  - induction l as [|x l IHl]; [done|].
    rewrite filter_cons_False; [exact IHl | apply not_elem_of_nil].
  - rewrite fmap_cons. cbn [sum_list_with]. rewrite IH. unfold occurrences, id.
    rewrite (length_filter_disjoint (λ x, x = k) (λ x, x ∈ ks)).
    + f_equal. apply list_filter_iff. intros x. by rewrite elem_of_cons.
    + intros x -> Hin. by apply Hk.
Qed.

Lemma value_counts_Permutation col :
  value_counts col
  ≡ₚ (λ v, (v, occurrences v (dropna col))) <$> remove_dups (dropna col).
Proof. apply merge_sort_Permutation. Qed.

Lemma value_counts_values col :
  (value_counts col).*1 ≡ₚ remove_dups (dropna col).
Proof.
  rewrite value_counts_Permutation, <-list_fmap_compose.
  rewrite <-(list_fmap_id (remove_dups _)) at 2.
  by erewrite list_fmap_ext.
Qed.

Lemma elem_of_value_counts col v n :
  (v, n) ∈ value_counts col
  ↔ v ∈ dropna col ∧ n = occurrences v (dropna col).
Proof.
  rewrite value_counts_Permutation, list_elem_of_fmap.
  setoid_rewrite elem_of_remove_dups. naive_solver.
Qed.

(** X13. A frequency table has one line per value that occurs in the
    column, missing cells apart, with the number of cells holding it; the
    counts are positive, they add up to the number of cells that are not
    missing, and they never increase down the table. *)
Theorem value_counts_table (col : list (option string)) :
  NoDup (value_counts col).*1
  ∧ (∀ v n, (v, n) ∈ value_counts col
            ↔ v ∈ dropna col ∧ n = occurrences v (dropna col))
  ∧ Forall (λ line, 0 < line.2)%nat (value_counts col)
  ∧ sum_list (value_counts col).*2 = length (dropna col)
  ∧ (∀ i j v1 n1 v2 n2, (i < j)%nat
        → value_counts col !! i = Some (v1, n1)
        → value_counts col !! j = Some (v2, n2) → (n2 ≤ n1)%nat).
Proof.
  split_and!.
  - rewrite value_counts_values. apply NoDup_remove_dups.
  - apply elem_of_value_counts.
  - apply Forall_forall. intros [v n] [Hv ->]%elem_of_value_counts.
    by apply occurrences_pos.
  - rewrite value_counts_Permutation, <-list_fmap_compose.
    change (snd ∘ (λ v, (v, occurrences v (dropna col))))
      with (λ v, occurrences v (dropna col)).
    rewrite sum_occurrences by apply NoDup_remove_dups.
    f_equal. apply filter_all, Forall_forall.
    intros x Hx. by apply elem_of_remove_dups.
  - intros i j v1 n1 v2 n2 Hij Hi Hj.
    apply (StronglySorted_lookup count_desc (value_counts col) i j
             (v1, n1) (v2, n2));
      [apply StronglySorted_merge_sort; apply _ | done | done | done].
Qed.

(** X14. The category of the "Most Common Air Quality" card is one of the
    bars of the category chart, and its count is the count of the first,
    tallest bar. *)
Theorem kpi_mode_is_top_bar (col : list (option string)) (top : string) :
  series_get0 (series_mode col) = Ok top
  → (top, occurrences top (dropna col)) ∈ value_counts col
    ∧ ∃ v rest,
        value_counts col = (v, occurrences top (dropna col)) :: rest.
Proof.
  intros (Hin & Hmax & _)%series_mode_get0.
  assert (Htop : (top, occurrences top (dropna col)) ∈ value_counts col).
  { by apply elem_of_value_counts. }
  split; [done|].
  destruct (value_counts_table col) as (_ & _ & _ & _ & Hdesc).
  destruct (value_counts col) as [|[v n] rest] eqn:E;
    [by apply elem_of_nil in Htop|].
  exists v, rest. do 2 f_equal.
  assert (Hv : (v, n) ∈ value_counts col) by (rewrite E; by left).
  apply elem_of_value_counts in Hv as [_ ->].
  apply Nat.le_antisymm; [apply Hmax|].
  apply elem_of_cons in Htop as [[= <- _]|Hrest]; [done|].
  apply list_elem_of_lookup in Hrest as [j Hj].
  by apply (Hdesc 0%nat (S j) v _ top _ ltac:(lia) eq_refl Hj).
Qed.

Lemma kpi_mode_is_top_bar_witness :
  value_counts (Air_Quality <$> enrich (load_data Sample.three_rows))
  = [("Moderate"%string, 2%nat); ("Good"%string, 1%nat)]
  ∧ ∃ v rest,
      value_counts (Air_Quality <$> enrich (load_data Sample.three_rows))
      = (v, occurrences "Moderate"%string
              (dropna (Air_Quality <$> enrich (load_data Sample.three_rows))))
        :: rest.
Proof.
  split; [vm_compute; reflexivity|].
  apply (kpi_mode_is_top_bar _ "Moderate"). vm_compute. reflexivity.
Defined.

(** ** Average and maximum *)

Lemma Qmax_cases x y : Qmax x y = x ∨ Qmax x y = y.
Proof.
  unfold Qmax, GenericMinMax.gmax. destruct (x ?= y)%Q; auto.
Qed.

Lemma foldl_Qmax_spec x xs :
  foldl Qmax x xs ∈ x :: xs
  ∧ Forall (λ y, (y <= foldl Qmax x xs)%Q) (x :: xs).
Proof.
  revert x. induction xs as [|y xs IH]; intros x; simpl.
  - split; [by left|]. repeat constructor. apply Qle_refl.
  - destruct (IH (Qmax x y)) as [Hin Hall].
    apply Forall_cons in Hall as [Hm Hall]. split.
    + apply elem_of_cons in Hin as [Hin|Hin].
      * rewrite Hin. destruct (Qmax_cases x y) as [->| ->];
          [by left | right; by left].
      * right. by right.
    + constructor; [|constructor; [|done]].
      * eapply Qle_trans; [apply Q.le_max_l | exact Hm].
      * eapply Qle_trans; [apply Q.le_max_r | exact Hm].
Qed.




(** ** Wind direction names *)

(** X16. The table of wind directions is one to one: two codes never share
    a full name, so the wind-direction chart never merges two codes into
    one bar. *)
Theorem WIND_DIR_MAP_injective (code1 code2 name : string) :
  WIND_DIR_MAP !! code1 = Some name → WIND_DIR_MAP !! code2 = Some name
  → code1 = code2.
Proof.
  unfold WIND_DIR_MAP.
  intros H1%elem_of_list_to_map_2 H2%elem_of_list_to_map_2.
  unfold WIND_DIR_ITEMS in *.
  repeat (apply elem_of_cons in H1 as [H1|H1];
          [injection H1 as -> ->;
           repeat (apply elem_of_cons in H2 as [H2|H2];
                   [by injection H2 as -> | ]);
           by apply elem_of_nil in H2 | ]).
  by apply elem_of_nil in H1.
Qed.

Lemma WIND_DIR_MAP_injective_witness :
  WIND_DIR_MAP !! "NNE"%string = Some "North-Northeast"%string
  ∧ map_dict WIND_DIR_MAP (Some "NNE"%string)
    = Some "North-Northeast"%string
  ∧ "NNE"%string = "NNE"%string.
Proof.
  assert (H : WIND_DIR_MAP !! "NNE"%string = Some "North-Northeast"%string)
    by (vm_compute; reflexivity).
  split_and!; [exact H | exact H |].
  exact (WIND_DIR_MAP_injective "NNE" "NNE" "North-Northeast" H H).
Defined.

(** ** Day and hour of a loaded row *)





(** ** Wind-direction chart *)

Lemma length_dropna_fmap {A B} (f : A → option B) (l : list A) :
  length (dropna (f <$> l)) = length (filter (λ x, is_Some (f x)) l).
Proof.
  unfold dropna. induction l as [|x l IH]; [done|].
  rewrite fmap_cons, filter_cons. cbn [omap list_omap]. unfold id at 1.
  destruct (f x) as [y|] eqn:E.
  - rewrite decide_True by eauto. simpl. by rewrite IH.
  - rewrite decide_False by (by intros [? ?]). done.
Qed.

Lemma filter_ext_in {A} (P Q : A → Prop) `{!∀ x, Decision (P x)}
    `{!∀ x, Decision (Q x)} (l : list A) :
  Forall (λ x, P x ↔ Q x) l → filter P l = filter Q l.
Proof.
  induction 1 as [|x l Hx _ IH]; [done|]. rewrite !filter_cons, IH.
  destruct (decide (P x)) as [HP|HP].
  - by rewrite decide_True by by apply Hx.
  - by rewrite decide_False by by rewrite <-Hx.
Qed.

Lemma map_dict_is_Some cell :
  is_Some (map_dict WIND_DIR_MAP cell)
  ↔ ∃ code, cell = Some code ∧ code ∈ WIND_DIR_ITEMS.*1.
Proof.
  destruct cell as [code|]; simpl.
  - rewrite <-not_eq_None_Some, WIND_DIR_MAP_lookup_None.
    split.
    + intros H. exists code. split; [done|].
      by destruct (decide (code ∈ WIND_DIR_ITEMS.*1)).
    + intros (? & [= <-] & ?). tauto.
  - split; [by intros [? ?] | by intros (? & ? & ?)].
Qed.

(** X18. In the wind-direction chart of a filtered frame every bar is one
    of the 16 full names, and the bars add up to the number of rows of the
    frame whose wind code is one of the 16 codes: rows with a missing or
    unknown code are in no bar. *)
Theorem wind_chart_counts (df view : DataFrame) (sel : Selection) :
  apply_filters (enrich df) sel = Ok view
  → Forall (λ bar, ∃ code, code ∈ WIND_DIR_ITEMS.*1
                           ∧ WIND_DIR_MAP !! code = Some bar.1)
      (value_counts (wind_direction_full <$> view))
    ∧ sum_list (value_counts (wind_direction_full <$> view)).*2
      = length (filter (λ r, is_Some (map_dict WIND_DIR_MAP (wd r))) view)
    ∧ (∀ r, is_Some (map_dict WIND_DIR_MAP (wd r))
            ↔ ∃ code, wd r = Some code ∧ code ∈ WIND_DIR_ITEMS.*1).
Proof.
  intros Hview.
  assert (Hrows : Forall (λ r, wind_direction_full r
                               = map_dict WIND_DIR_MAP (wd r)) view).
  { apply apply_filters_Ok in Hview as (lo & hi & _ & _ & ->).
    apply Forall_forall. intros r [_ Hr]%list_elem_of_filter.
    unfold enrich in Hr. by apply list_elem_of_fmap in Hr as (r0 & -> & _). }
  rewrite Forall_forall in Hrows.
  destruct (value_counts_table (wind_direction_full <$> view))
    as (_ & Hlines & _ & Hsum & _).
  split_and!; [| | intros r; apply map_dict_is_Some].
  - apply Forall_forall. intros [name n] [Hname _]%Hlines.
    unfold dropna in Hname. apply list_elem_of_omap in Hname as (o & Ho & Heq).
    unfold id in Heq. subst o.
    apply list_elem_of_fmap in Ho as (r & Hr & Hin).
    rewrite (Hrows r Hin) in Hr.
    destruct (wd r) as [code|]; [|done]. simpl in Hr. exists code.
    split; [|done]. apply dec_stable. intros Hnot.
    apply WIND_DIR_MAP_lookup_None in Hnot. congruence.
  - rewrite Hsum, length_dropna_fmap. f_equal.
    apply filter_ext_in, Forall_forall. intros r Hr. by rewrite (Hrows r Hr).
Qed.

Lemma wind_chart_counts_witness :
  ∃ view,
    apply_filters (enrich (load_data unknown_wind_rows))
      (Sample.everything ["A"] ["Spring"]) = Ok view
    ∧ length view = 3%nat
    ∧ value_counts (wind_direction_full <$> view)
      = [("North-Northeast"%string, 2%nat)]
    ∧ sum_list (value_counts (wind_direction_full <$> view)).*2
      = length (filter (λ r, is_Some (map_dict WIND_DIR_MAP (wd r))) view).
Proof.
  eexists. split; [vm_compute; reflexivity|].
  split; [reflexivity|]. split; [vm_compute; reflexivity|].
  eapply (wind_chart_counts (load_data unknown_wind_rows) _
            (Sample.everything ["A"] ["Spring"])).
  vm_compute. reflexivity.
Defined.

(** ** Row order *)

#[global] Instance str_le_antisym : AntiSymm (=) str_le.
Proof. intros s1 s2. apply String.leb_antisym. Qed.

Lemma dropna_Permutation {A} (col col' : list (option A)) :
  col ≡ₚ col' → dropna col ≡ₚ dropna col'.
Proof. intros H. unfold dropna. by rewrite H. Qed.

Lemma occurrences_Permutation `{EqDecision A} (v : A) (l l' : list A) :
  l ≡ₚ l' → occurrences v l = occurrences v l'.
Proof. intros H. unfold occurrences. by rewrite H. Qed.

Lemma series_mode_Permutation col col' :
  col ≡ₚ col' → series_mode col = series_mode col'.
Proof.
  intros Hperm%dropna_Permutation.
  apply (Sorted_unique str_le).
  - apply Sorted_merge_sort; apply _.
  - apply Sorted_merge_sort; apply _.
  - apply NoDup_Permutation.
    + unfold series_mode. rewrite (merge_sort_Permutation str_le).
      apply NoDup_filter, NoDup_remove_dups.
    + unfold series_mode. rewrite (merge_sort_Permutation str_le).
      apply NoDup_filter, NoDup_remove_dups.
    + intros v. rewrite !elem_of_series_mode.
      assert (Hin : v ∈ dropna col ↔ v ∈ dropna col') by by rewrite Hperm.
      assert (Hmax : max_list ((λ x, occurrences x (dropna col)) <$> dropna col)
                     = max_list ((λ x, occurrences x (dropna col'))
                                   <$> dropna col')).
      { assert ((λ x, occurrences x (dropna col)) <$> dropna col
                ≡ₚ (λ x, occurrences x (dropna col')) <$> dropna col') as ->;
          [|done].
        etrans; [by apply fmap_Permutation|].
        apply Permutation_refl'. apply list_fmap_ext. intros _ x _.
        by apply occurrences_Permutation. }
      by rewrite Hin, Hmax, (occurrences_Permutation v _ _ Hperm).
Qed.

Lemma Qsum_Permutation (l l' : list Q) : l ≡ₚ l' → (Qsum l == Qsum l')%Q.
Proof.
  unfold Qsum. induction 1 as [|x l l' _ IH|x y l|l1 l2 l3 _ IH1 _ IH2];
    cbn [foldr].
  - reflexivity.
  - by rewrite IH.
  - ring.
  - by rewrite IH1.
Qed.

Lemma series_mean_Permutation col col' :
  col ≡ₚ col' → option_Forall2 Qeq (series_mean col) (series_mean col').
Proof.
  intros Hperm%dropna_Permutation. unfold series_mean.
  pose proof (Permutation_length Hperm) as Hlen.
  pose proof (Qsum_Permutation _ _ Hperm) as Hsum.
  destruct (dropna col) as [|x xs], (dropna col') as [|y ys];
    try done; constructor.
  by rewrite Hsum, Hlen.
Qed.

Lemma series_max_Permutation col col' :
  col ≡ₚ col' → option_Forall2 Qeq (series_max col) (series_max col').
Proof.
  intros Hperm%dropna_Permutation. unfold series_max.
  pose proof (Permutation_length Hperm) as Hlen.
  destruct (dropna col) as [|x xs], (dropna col') as [|y ys];
    try done; constructor.
  destruct (foldl_Qmax_spec x xs) as [Hin Hall].
  destruct (foldl_Qmax_spec y ys) as [Hin' Hall'].
  rewrite Forall_forall in Hall. rewrite Forall_forall in Hall'.
  apply Qle_antisym.
  - apply Hall'. by rewrite <-Hperm.
  - apply Hall. by rewrite Hperm.
Qed.

(** X19. The four KPI cards do not depend on the order of the rows: two
    frames with the same rows in different orders give the same record
    count and most common category, and the same average and maximum as
    rational numbers. *)
Theorem kpi_row_order (view view' : DataFrame) :
  view ≡ₚ view'
  → length view = length view'
    ∧ series_get0 (series_mode (Air_Quality <$> view))
      = series_get0 (series_mode (Air_Quality <$> view'))
    ∧ option_Forall2 Qeq (series_mean (PSI <$> view))
        (series_mean (PSI <$> view'))
    ∧ option_Forall2 Qeq (series_max (PSI <$> view))
        (series_max (PSI <$> view')).
Proof.
  intros Hperm. split_and!.
  - by rewrite Hperm.
  - f_equal. apply series_mode_Permutation. by rewrite Hperm.
  - apply series_mean_Permutation. by rewrite Hperm.
  - apply series_max_Permutation. by rewrite Hperm.
Qed.

Lemma kpi_row_order_witness :
  series_get0
    (series_mode (Air_Quality <$> enrich (load_data Sample.tie_rows)))
  = series_get0
      (series_mode
         (Air_Quality <$> reverse (enrich (load_data Sample.tie_rows))))
  ∧ option_Forall2 Qeq
      (series_mean (PSI <$> enrich (load_data Sample.tie_rows)))
      (series_mean (PSI <$> reverse (enrich (load_data Sample.tie_rows)))).
Proof.
  destruct (kpi_row_order (enrich (load_data Sample.tie_rows))
              (reverse (enrich (load_data Sample.tie_rows))))
    as (_ & Hmode & Hmean & _).
  - by rewrite reverse_Permutation.
  - by split.
Defined.

Section corr_order.
Import Corr.
#[local] Open Scope R_scope.

Lemma Rsum_Permutation (l l' : list R) : l ≡ₚ l' → Rsum l = Rsum l'.
Proof.
  unfold Rsum. induction 1 as [|x l l' _ IH|x y l|l1 l2 l3 _ IH1 _ IH2];
    cbn [foldr].
  - done.
  - by rewrite IH.
  - ring.
  - by rewrite IH1.
Qed.

Lemma Rmean_Permutation (l l' : list R) : l ≡ₚ l' → Rmean l = Rmean l'.
Proof.
  intros H. unfold Rmean.
  by rewrite (Rsum_Permutation _ _ H), (Permutation_length H).
Qed.

Lemma sq_deviation_Permutation (l l' : list R) :
  l ≡ₚ l' → sq_deviation l = sq_deviation l'.
Proof.
  intros H. unfold sq_deviation. rewrite (Rmean_Permutation _ _ H).
  apply Rsum_Permutation. by rewrite H.
Qed.

Lemma pearson_Permutation (ps ps' : list (R * R)) :
  ps ≡ₚ ps' → pearson ps = pearson ps'.
Proof.
  intros H. unfold pearson, codeviation.
  assert (H1 : ps.*1 ≡ₚ ps'.*1) by by rewrite H.
  assert (H2 : ps.*2 ≡ₚ ps'.*2) by by rewrite H.
  rewrite (Permutation_length H).
  rewrite (sq_deviation_Permutation _ _ H1), (sq_deviation_Permutation _ _ H2).
  rewrite (Rmean_Permutation _ _ H1), (Rmean_Permutation _ _ H2).
  by rewrite (Rsum_Permutation _ _
                (fmap_Permutation
                   (λ p, (p.1 - Rmean (ps'.*1)) * (p.2 - Rmean (ps'.*2)))
                   _ _ H)).
Qed.
End corr_order.

(** X20. The correlation matrix does not depend on the order of the rows:
    two frames with the same rows in different orders have the same
    matrix. *)
Theorem corr_row_order (view view' : DataFrame) (a b : NumCol) :
  view ≡ₚ view' → Corr.corr view a b = Corr.corr view' a b.
Proof.
  intros Hperm. unfold Corr.corr, Corr.complete_pairs.
  apply pearson_Permutation. by rewrite Hperm.
Qed.

Lemma corr_row_order_witness :
  Corr.corr (enrich (load_data Sample.three_rows)) cPSI cTEMP
  = Corr.corr (reverse (enrich (load_data Sample.three_rows))) cPSI cTEMP.
Proof. apply corr_row_order. by rewrite reverse_Permutation. Defined.
